(** * tag-audit: front-matter taxonomy audit

    A shallow embedding of [tag-audit.py] (normalisation of tag and category
    fields, the collection loop, the filter/sort engine, the singleton
    listing and the inverse-mapping views) together with the properties of
    its specification.

    Conventions of the embedding.
    - A Python [str] is a Rocq [string]; the character with code [n] stands
      for the Unicode code point [n], so the embedding covers the strings
      whose code points are below 256.  [str.strip] and [str.lower] are
      written out for that range.
    - A Python [int] is a [Z].
    - A [dict], [Counter] or [defaultdict] keyed by strings is a
      [gmap string _]; a key that is absent from a [Counter] reads as 0.
    - The file system, the directory walk and [yaml.safe_load] are the
      environment of the program: they are the variables of the sections
      below.
    - An uncaught Python exception is the outcome [None] of a run. *)

From Stdlib Require Import ZArith Ascii String List Sorted Permutation Lia.
From stdpp Require Import base option list gmap strings fin_maps sorting pretty.

Local Open Scope Z_scope.

(** ** Strings *)

Module Str.

(** [str.isspace] for one character, code points below 256: the ASCII
    white space 9-13, 28-31 and 32, then U+0085 and U+00A0. *)
Definition is_space (c : ascii) : bool :=
  let n := N_of_ascii c in
  ((9 <=? n) && (n <=? 13) || (28 <=? n) && (n <=? 32)
   || (n =? 133) || (n =? 160))%N.

(** [str.lower] for one character: A-Z, and the Latin-1 capitals
    U+00C0-U+00DE without the multiplication sign U+00D7. *)
Definition lower_char (c : ascii) : ascii :=
  let n := N_of_ascii c in
  if ((65 <=? n) && (n <=? 90)
      || (192 <=? n) && (n <=? 222) && negb (n =? 215))%N
  then ascii_of_N (n + 32) else c.

Fixpoint lower (s : string) : string :=
  match s with
  | EmptyString => EmptyString
  | String c r => String (lower_char c) (lower r)
  end.

Fixpoint lstrip (s : string) : string :=
  match s with
  | EmptyString => EmptyString
  | String c r => if is_space c then lstrip r else s
  end.

(** Removes the trailing white space: a character is dropped when it is
    white space and nothing is left after it. *)
Fixpoint rstrip (s : string) : string :=
  match s with
  | EmptyString => EmptyString
  | String c r =>
      match rstrip r with
      | EmptyString => if is_space c then EmptyString else String c EmptyString
      | r' => String c r'
      end
  end.

(** [s.strip()] *)
Definition strip (s : string) : string := rstrip (lstrip s).

(** Truth value of a string: non-empty. *)
Definition nonempty (s : string) : bool :=
  match s with EmptyString => false | _ => true end.

(** [sep.join(parts)] *)
Fixpoint join (sep : string) (parts : list string) : string :=
  match parts with
  | [] => EmptyString
  | [p] => p
  | p :: rest => p +:+ sep +:+ join sep rest
  end.

(** [c * n] for a one-character string [c] *)
Fixpoint repeat_char (c : ascii) (n : nat) : string :=
  match n with
  | O => EmptyString
  | S k => String c (repeat_char c k)
  end.

(** [s.startswith(p)] *)
Definition startswith (p s : string) : bool := String.prefix p s.

(** [s.endswith(x)] *)
Definition endswith (x s : string) : bool :=
  let n := String.length s in
  let k := String.length x in
  (k <=? n)%nat && String.eqb (String.substring (n - k) k s) x.

(** Order of [str]: lexicographic on code points. *)
Definition ltb (a b : string) : bool := String.ltb a b.
Definition leb (a b : string) : bool := String.leb a b.

Definition nl : string := String (ascii_of_N 10) EmptyString.
Definition dquote : string := String (ascii_of_N 34) EmptyString.

End Str.

(** ** Values produced by [yaml.safe_load] *)

#[local] Set Warnings "-register-all".

Inductive yaml_value : Type :=
  | YNull                                        (* None *)
  | YBool (b : bool)
  | YInt (n : Z)
  | YFloat (bits : Z)                            (* IEEE 754 double, its 64 bits *)
  | YStr (s : string)
  | YBytes (b : list ascii)                      (* !!binary *)
  | YTimestamp (iso : string)                    (* date or datetime *)
  | YList (items : list yaml_value)
  | YSet (elems : list yaml_value)               (* !!set *)
  | YMap (entries : list (yaml_value * yaml_value)).

(** Python truth value ([bool(v)], [not v], [v or d]). *)
Definition truthy (v : yaml_value) : bool :=
  match v with
  | YNull => false
  | YBool b => b
  | YInt n => negb (n =? 0)
  | YFloat bits => negb (Z.land bits (2 ^ 63 - 1) =? 0)
  | YStr s => Str.nonempty s
  | YBytes b => match b with [] => false | _ => true end
  | YTimestamp _ => true
  | YList l => match l with [] => false | _ => true end
  | YSet l => match l with [] => false | _ => true end
  | YMap l => match l with [] => false | _ => true end
  end.

(** [d.get(key, default)] on the entries of a mapping, [key] a string: only
    an entry whose key is that very string matches. *)
Fixpoint dict_get (entries : list (yaml_value * yaml_value)) (key : string)
    (default : yaml_value) : yaml_value :=
  match entries with
  | [] => default
  | (YStr k, v) :: rest => if String.eqb k key then v else dict_get rest key default
  | _ :: rest => dict_get rest key default
  end.

(** ** Normalisation of a tags or categories field *)

(** [v.strip().lower()] *)
Definition normalize (s : string) : string := Str.lower (Str.strip s).

(** The body of the loop of [coerce_list]: one element of a list value. *)
Definition coerce_item (out : list string) (v : yaml_value) : list string :=
  match v with
  | YStr x =>
      let s := normalize x in
      if Str.nonempty s then out ++ [s] else out
  | _ => out
  end.

Definition coerce_list (value : yaml_value) : list string :=
  if negb (truthy value) then []
  else match value with
       | YStr x =>
           let s := normalize x in
           if Str.nonempty s then [s] else []
       | YList items => fold_left coerce_item items []
       | _ => []
       end.

(** ** The environment: files, the directory walk, the YAML parser *)

(** A line written to the diagnostic stream ([sys.stderr]); [msg] is the
    text of the exception. *)
Inductive warning : Type :=
  | ReadError (path msg : string)       (* Error reading {path}: {e} *)
  | YamlError (path msg : string).      (* Error parsing YAML in {path}: {e} *)

(** [lines[a:b]] *)
Definition slice {A : Type} (l : list A) (a b : Z) : list A :=
  let n := Z.of_nat (length l) in
  let clip i := if i <? 0 then Z.max (i + n) 0 else Z.min i n in
  let lo := clip a in
  let hi := clip b in
  firstn (Z.to_nat (hi - lo)) (skipn (Z.to_nat lo) l).

Fixpoint find_marker (idx : Z) (rest : list string) : Z * Z :=
  match rest with
  | [] => (-1, -1)
  | l :: r =>
      if String.eqb (Str.strip l) "---" then (0, idx) else find_marker (idx + 1) r
  end.

(** [(start_idx, end_idx)] of the front matter, [(-1, -1)] without one. *)
Definition is_front_matter_yaml (lines : list string) : Z * Z :=
  match lines with
  | [] => (-1, -1)
  | first :: rest =>
      if negb (String.eqb (Str.strip first) "---") then (-1, -1)
      else find_marker 1 rest
  end.

(** [os.path.join(a, b)] (POSIX) *)
Definition path_join (a b : string) : string :=
  if Str.startswith "/" b then b
  else if negb (Str.nonempty a) || Str.endswith "/" a then a +:+ b
  else a +:+ "/" +:+ b.

(** The usage record of one file: [{"tags": ..., "categories": ...}]. *)
Record usage : Type := Usage {
  u_tags : list string;
  u_categories : list string
}.

(** What [collect] returns. *)
Record collected : Type := Collected {
  tags_counter : gmap string Z;
  cats_counter : gmap string Z;
  file_usage : gmap string usage;
  tag_to_files : gmap string (list string);
  cat_to_files : gmap string (list string)
}.

Definition empty_collected : collected :=
  Collected ∅ ∅ ∅ ∅ ∅.

(** [counter[name]]: a missing name counts 0. *)
Definition count_of (c : gmap string Z) (name : string) : Z :=
  default 0 (c !! name).

(** [mapping.get(key, [])] *)
Definition files_of (m : gmap string (list string)) (key : string) : list string :=
  default [] (m !! key).

(** [counter.update(names)]: one increment for each element. *)
Definition counter_update (c : gmap string Z) (names : list string) : gmap string Z :=
  fold_left (fun c n => <[n := count_of c n + 1]> c) names c.

(** [for t in names: mapping[t].append(path)] on a [defaultdict(list)]. *)
Definition append_path (path : string) (m : gmap string (list string))
    (names : list string) : gmap string (list string) :=
  fold_left (fun m n => <[n := files_of m n ++ [path]]> m) names m.

(** A run: what was written to the diagnostic stream, and the value, [None]
    when an exception escaped. *)
Definition run (A : Type) : Type := list warning * option A.

Definition run_ret {A : Type} (a : A) : run A := ([], Some a).

Definition run_bind {A B : Type} (m : run A) (k : A -> run B) : run B :=
  match m with
  | (w, None) => (w, None)
  | (w, Some a) => let '(w', r) := k a in (w ++ w', r)
  end.

Definition warn (w : warning) : run unit := ([w], Some tt).

(** An uncaught exception. *)
Definition raise {A : Type} : run A := ([], None).

Notation "x <~ m ; k" := (run_bind m (fun x => k))
  (at level 100, m at next level, right associativity).

(** ** Reading and collecting *)

Section Collect.

(** [f.readlines()] of the file at a path: its lines, or the text of the
    exception raised by [open] or by the read. *)
Variable read_lines : string -> string + list string.

(** [yaml.safe_load]: the value of a document, or the text of the exception.
    The entries of a [YMap] are the items of a [dict]: their keys are
    pairwise distinct. *)
Variable safe_load : string -> string + yaml_value.

(** [os.walk(top)]: the directories visited, each with its file names; no
    directory when [top] does not exist. *)
Variable os_walk : string -> list (string * list string).

(** The result is [Optional[dict]]: [None] after a warning. *)
Definition read_front_matter (path : string) : run (option yaml_value) :=
  match read_lines path with
  | inl e => _ <~ warn (ReadError path e); run_ret None
  | inr lines =>
      let '(s, e) := is_front_matter_yaml lines in
      if s =? -1 then run_ret (Some (YMap []))
      else
        let frontmatter := Str.join "" (slice lines (s + 1) e) in
        match safe_load frontmatter with
        | inl err => _ <~ warn (YamlError path err); run_ret None
        | inr v => run_ret (Some (if truthy v then v else YMap []))
        end
  end.

Definition iter_paths (content_dir : string) (exts : list string) : list string :=
  flat_map (fun '(root, files) =>
    flat_map (fun filename =>
      if existsb (fun ext => Str.endswith ext filename) exts
      then [path_join root filename] else []) files)
    (os_walk content_dir).

(** [data == {}] *)
Definition is_empty_dict (data : yaml_value) : bool :=
  match data with YMap [] => true | _ => false end.

(** [data.get(key, default)]: only a mapping has the method, any other
    value raises [AttributeError]. *)
Definition get (data : yaml_value) (key : string) (default : yaml_value)
    : run yaml_value :=
  match data with
  | YMap entries => run_ret (dict_get entries key default)
  | _ => raise
  end.

(** The body of the loop of [collect]. *)
Definition collect_file (ignore_drafts : bool) (st : collected) (path : string)
    : run collected :=
  data <~ read_front_matter path;
  match data with
  | None => run_ret st                                   (* read/parse failed *)
  | Some data =>
      if is_empty_dict data then run_ret st              (* no front matter *)
      else
        draft <~ (if ignore_drafts
                  then d <~ get data "draft" (YBool false); run_ret (truthy d)
                  else run_ret false);
        if draft then run_ret st
        else
          t <~ get data "tags" YNull;
          c <~ get data "categories" YNull;
          let tags := coerce_list t in
          let cats := coerce_list c in
          run_ret {|
            tags_counter := counter_update (tags_counter st) tags;
            cats_counter := counter_update (cats_counter st) cats;
            file_usage := <[path := Usage tags cats]> (file_usage st);
            tag_to_files := append_path path (tag_to_files st) tags;
            cat_to_files := append_path path (cat_to_files st) cats
          |}
  end.

Fixpoint collect_loop (ignore_drafts : bool) (paths : list string) (st : collected)
    : run collected :=
  match paths with
  | [] => run_ret st
  | path :: rest =>
      st' <~ collect_file ignore_drafts st path;
      collect_loop ignore_drafts rest st'
  end.

(** The paths [collect] goes through: [file_paths] when it is given and
    not empty, the walk otherwise. *)
Definition collect_paths (content_dir : string) (exts : list string)
    (file_paths : option (list string)) : list string :=
  match file_paths with
  | Some (p :: ps) => p :: ps
  | _ => iter_paths content_dir exts
  end.

Definition collect (content_dir : string) (exts : list string)
    (ignore_drafts : bool) (file_paths : option (list string)) : run collected :=
  collect_loop ignore_drafts (collect_paths content_dir exts file_paths)
    empty_collected.

End Collect.

(** ** The filter/sort engine *)

Section Sorting.
Context {A K : Type} (key : A -> K) (le : K -> K -> bool).

(** Puts [x] in front of the first element whose key is not below its own. *)
Fixpoint insert_by (x : A) (l : list A) : list A :=
  match l with
  | [] => [x]
  | y :: r => if le (key x) (key y) then x :: y :: r else y :: insert_by x r
  end.

(** [sorted(l, key=key)] and [l.sort(key=key)]: a stable sort, elements
    with equal keys keep their order. *)
Definition sort_by (l : list A) : list A := foldr insert_by [] l.
End Sorting.

(** Order of the tuples [(-count, name)]. *)
Definition tuple_leb (a b : Z * string) : bool :=
  (a.1 <? b.1) || (a.1 =? b.1) && String.leb a.2 b.2.

Definition sort_and_filter (counter : gmap string Z) (mode : string)
    (min_count top : Z) : list (string * Z) :=
  let items := List.filter (fun kv : string * Z => min_count <=? kv.2)
                 (map_to_list counter) in
  let items :=
    if String.eqb mode "alpha"
    then sort_by (fun kv : string * Z => kv.1) String.leb items
    else sort_by (fun kv : string * Z => (- kv.2, kv.1)) tuple_leb items in
  if 0 <? top then firstn (Z.to_nat top) items else items.

(** ** Renderers *)

(** A JSON document; an object keeps the order of its keys. *)
Inductive json : Type :=
  | JNum (n : Z)
  | JStr (s : string)
  | JArr (items : list json)
  | JObj (members : list (string * json)).

(** [d[k] = v] on a [dict] in insertion order: a present key keeps its place. *)
Fixpoint dict_set {V : Type} (d : list (string * V)) (k : string) (v : V)
    : list (string * V) :=
  match d with
  | [] => [(k, v)]
  | (k', v') :: r =>
      if String.eqb k' k then (k', v) :: r else (k', v') :: dict_set r k v
  end.

(** [{k: f(k) for k in keys}] *)
Definition dict_comprehension {V : Type} (f : string -> V) (keys : list string)
    : list (string * V) :=
  fold_left (fun d k => dict_set d k (f k)) keys [].

(** [str(n)] *)
Definition str_of_int (n : Z) : string := pretty n.

(** [len(s)] *)
Definition len (s : string) : Z := Z.of_nat (String.length s).

(** [c * n] *)
Definition times (c : ascii) (n : Z) : string := Str.repeat_char c (Z.to_nat n).

(** [f"{s:>{width}}"] and [f"{s:<{width}}"] *)
Definition rjust (s : string) (width : Z) : string := times " "%char (width - len s) +:+ s.
Definition ljust (s : string) (width : Z) : string := s +:+ times " "%char (width - len s).

(** [max(f(r) for r in rows)] below a starting value *)
Definition max_of {A : Type} (f : A -> Z) (start : Z) (rows : list A) : Z :=
  fold_left (fun m r => Z.max m (f r)) rows start.

(** [sum(cnt for _, cnt in rows)] *)
Definition total (rows : list (string * Z)) : Z :=
  fold_left (fun acc r => acc + r.2) rows 0.

(** [sorted(paths)] *)
Definition sorted_strings (l : list string) : list string :=
  sort_by (fun s : string => s) String.leb l.

(** [s.replace(a, b)] for a one-character [a] *)
Fixpoint replace_char (a : ascii) (b : string) (s : string) : string :=
  match s with
  | EmptyString => EmptyString
  | String c r =>
      if Ascii.eqb c a then b +:+ replace_char a b r
      else String c (replace_char a b r)
  end.

Section Render.

(** [json.dumps(value, indent=2)] *)
Variable json_dumps : json -> string.

Definition render_table_text (rows : list (string * Z)) (header : string) : string :=
  match rows with
  | [] => header +:+ Str.nl +:+ times "="%char (len header) +:+ Str.nl +:+ "(none)" +:+ Str.nl
  | _ =>
      let width_item := max_of (fun r : string * Z => len r.1) (len header) rows in
      let width_cnt := max_of (fun r : string * Z => len (str_of_int r.2)) 5 rows in
      let out :=
        [header; times "="%char (len header);
         rjust "count" width_cnt +:+ "  " +:+ ljust "name" width_item;
         times "-"%char width_cnt +:+ "  " +:+ times "-"%char width_item] in
      let out :=
        fold_left (fun out r =>
          out ++ [rjust (str_of_int r.2) width_cnt +:+ "  " +:+ ljust r.1 width_item])
          rows out in
      let out :=
        out ++ [Str.nl +:+ "Total " +:+ Str.lower header +:+ ": "
                +:+ str_of_int (total rows)] in
      Str.join Str.nl out +:+ Str.nl
  end.

Definition render_table_markdown (rows : list (string * Z)) (header : string) : string :=
  match rows with
  | [] => "### " +:+ header +:+ Str.nl +:+ Str.nl +:+ "*(none)*" +:+ Str.nl
  | _ =>
      let out := ["### " +:+ header; ""; "| count | name |"; "| ---: | :---- |"] in
      let out :=
        fold_left (fun out r =>
          out ++ ["| " +:+ str_of_int r.2 +:+ " | " +:+ r.1 +:+ " |"]) rows out in
      let out := out ++ [""] in
      let out :=
        out ++ ["_Total " +:+ Str.lower header +:+ ": **"
                +:+ str_of_int (total rows) +:+ "**_"] in
      let out := out ++ [""] in
      Str.join Str.nl out
  end.

Definition render_table_csv (rows : list (string * Z)) (header : string) : string :=
  let out := ["count,name"] in
  let out :=
    fold_left (fun out r =>
      let safe := replace_char (ascii_of_N 34) (Str.dquote +:+ Str.dquote) r.1 in
      out ++ [str_of_int r.2 +:+ "," +:+ Str.dquote +:+ safe +:+ Str.dquote])
      rows out in
  Str.join Str.nl out +:+ Str.nl.

Definition render_table_json (rows : list (string * Z)) (header : string) : string :=
  json_dumps
    (JObj [("header", JStr header);
           ("total", JNum (total rows));
           ("rows", JArr (map (fun r : string * Z =>
                            JObj [("name", JStr r.1); ("count", JNum r.2)]) rows))]).

Definition render_by_format (rows : list (string * Z)) (header fmt : string) : string :=
  if String.eqb fmt "markdown" then render_table_markdown rows header
  else if String.eqb fmt "csv" then render_table_csv rows header
  else if String.eqb fmt "json" then render_table_json rows header
  else render_table_text rows header.

(** *** Inverse mapping renderers *)

Definition render_mapping_text (header : string) (ordered_keys : list string)
    (mapping : gmap string (list string)) : string :=
  let out := [header; times "="%char (len header)] in
  match ordered_keys with
  | [] => Str.join Str.nl (out ++ ["(none)"]) +:+ Str.nl
  | _ =>
      let out :=
        fold_left (fun out key =>
          let out := out ++ [Str.nl +:+ key] in
          let out := out ++ [times "-"%char (len key)] in
          fold_left (fun out path => out ++ ["  " +:+ path])
            (sorted_strings (files_of mapping key)) out)
          ordered_keys out in
      let out := out ++ [""] in
      Str.join Str.nl out
  end.

Definition render_mapping_markdown (header : string) (ordered_keys : list string)
    (mapping : gmap string (list string)) : string :=
  let out := ["### " +:+ header; ""] in
  match ordered_keys with
  | [] => Str.join Str.nl (out ++ ["*(none)*"] ++ [""])
  | _ =>
      let out :=
        fold_left (fun out key =>
          let out := out ++ ["#### " +:+ key] in
          let out :=
            fold_left (fun out path => out ++ ["- `" +:+ path +:+ "`"])
              (sorted_strings (files_of mapping key)) out in
          out ++ [""])
          ordered_keys out in
      Str.join Str.nl out
  end.

Definition render_mapping_csv (ordered_keys : list string)
    (mapping : gmap string (list string)) : string :=
  let out := ["name,file"] in
  let out :=
    fold_left (fun out key =>
      let files := sorted_strings (files_of mapping key) in
      match files with
      | [] => out ++ [Str.dquote +:+ key +:+ Str.dquote +:+ ","]
      | _ =>
          fold_left (fun out path =>
            out ++ [Str.dquote +:+ key +:+ Str.dquote +:+ ","
                    +:+ Str.dquote +:+ path +:+ Str.dquote]) files out
      end) ordered_keys out in
  Str.join Str.nl out +:+ Str.nl.

(** The payload handed to [json.dumps]. *)
Definition mapping_payload (ordered_keys : list string)
    (mapping : gmap string (list string)) (header_key : string) : json :=
  JObj [(header_key,
         JObj (dict_comprehension
                 (fun k => JArr (map JStr (sorted_strings (files_of mapping k))))
                 ordered_keys))].

Definition render_mapping_json (ordered_keys : list string)
    (mapping : gmap string (list string)) (header_key : string) : string :=
  json_dumps (mapping_payload ordered_keys mapping header_key).

End Render.

(** ** The report driver *)

(** The command line, as [parse_args] returns it. *)
Record args : Type := Args {
  a_dir : string;
  a_file : option string;
  a_ext : string;
  a_ignore_drafts : bool;
  a_per_file : bool;
  a_summary : bool;
  a_singletons : bool;
  a_by_tag : bool;
  a_by_cat : bool;
  a_format : string;
  a_sort : string;
  a_min_count : Z;
  a_top : Z
}.

(** What is written to the standard output, one entry for each [print] or
    [write]; the banner of the per-file listing is a fixed text with a
    pictograph. *)
Inductive chunk : Type :=
  | Text (s : string)
  | PerFileBanner.

(** [s.split(sep)] for a one-character separator *)
Fixpoint split_on (sep : ascii) (s : string) : list string :=
  match s with
  | EmptyString => [EmptyString]
  | String c r =>
      if Ascii.eqb c sep then EmptyString :: split_on sep r
      else match split_on sep r with
           | h :: t => String c h :: t
           | [] => [String c EmptyString]
           end
  end.

(** The names the singleton listing shows, each with the count 1. *)
Definition singleton_rows (mapping : gmap string (list string)) : list (string * Z) :=
  sort_by (fun kv : string * Z => kv.1) String.leb
    (map (fun tf : string * list string => (tf.1, 1))
       (List.filter (fun tf : string * list string => Z.of_nat (length tf.2) =? 1)
          (map_to_list mapping))).

Section Main.

Variable read_lines : string -> string + list string.
Variable safe_load : string -> string + yaml_value.
Variable os_walk : string -> list (string * list string).
Variable json_dumps : json -> string.

(** [sys.stdout.isatty()] *)
Variable stdout_isatty : bool.

(** [print(s)] and [print(s, end="")] *)
Definition print (s : string) : chunk := Text (s +:+ Str.nl).
Definition print_noend (s : string) : chunk := Text s.

Definition print_per_file (usage_of : gmap string usage) : list chunk :=
  let shown (l : list string) : string :=
    match l with [] => "(none)" | _ => Str.join ", " l end in
  [PerFileBanner]
  ++ flat_map (fun fname =>
       match usage_of !! fname with
       | Some u =>
           [print (fname +:+ ":");
            print ("    tags: " +:+ shown (u_tags u));
            print ("    categories: " +:+ shown (u_categories u))]
       | None => []
       end) (sorted_strings (map fst (map_to_list usage_of)))
  ++ [print (Str.nl +:+ "---" +:+ Str.nl)].

Definition exts_of (ext : string) : list string :=
  let raw_exts :=
    List.filter Str.nonempty (map Str.strip (split_on ","%char ext)) in
  map (fun e => if Str.startswith "." e then e else "." +:+ e) raw_exts.

Definition file_paths_of (file : option string) : option (list string) :=
  match file with
  | Some f => if Str.nonempty f then Some [f] else None
  | None => None
  end.

Definition summary_section (a : args) (r : collected) : list chunk :=
  let tag_rows := sort_and_filter (tags_counter r) (a_sort a) (a_min_count a) (a_top a) in
  let cat_rows := sort_and_filter (cats_counter r) (a_sort a) (a_min_count a) (a_top a) in
  [print_noend (render_by_format json_dumps tag_rows "Tags" (a_format a));
   print_noend (render_by_format json_dumps cat_rows "Categories" (a_format a))].

Definition singletons_section (a : args) (r : collected) : list chunk :=
  let single_tag_rows := singleton_rows (tag_to_files r) in
  let single_cat_rows := singleton_rows (cat_to_files r) in
  if String.eqb (a_format a) "text" then
    [print_noend (render_table_text single_tag_rows "Singleton tags (used only once)");
     print_noend (render_table_text single_cat_rows
                    "Singleton categories (used only once)")]
  else if String.eqb (a_format a) "markdown" then
    [print (render_table_markdown single_tag_rows "Singleton tags (used only once)");
     print (render_table_markdown single_cat_rows
              "Singleton categories (used only once)")]
  else if String.eqb (a_format a) "csv" then
    [Text ("# singleton_tags" +:+ Str.nl);
     Text (render_table_csv single_tag_rows "singleton_tags");
     Text ("# singleton_categories" +:+ Str.nl);
     Text (render_table_csv single_cat_rows "singleton_categories")]
  else
    [print (json_dumps
       (JObj [("singletons",
               JObj [("tags", JArr (map (fun r : string * Z => JStr r.1) single_tag_rows));
                     ("categories",
                      JArr (map (fun r : string * Z => JStr r.1) single_cat_rows))])]))].

Definition ordered_keys_from (a : args) (counter : gmap string Z) : list string :=
  let rows := sort_and_filter counter (a_sort a) (a_min_count a) (a_top a) in
  map fst rows.

(** One mapping view: the branch on the format is the same for tags and
    for categories, up to the header, the comment line and the JSON key. *)
Definition mapping_section (a : args) (header comment header_key : string)
    (ordered : list string) (mapping : gmap string (list string)) : list chunk :=
  if String.eqb (a_format a) "markdown" then
    [print (render_mapping_markdown header ordered mapping)]
  else if String.eqb (a_format a) "csv" then
    [Text (comment +:+ Str.nl); Text (render_mapping_csv ordered mapping)]
  else if String.eqb (a_format a) "json" then
    [print (render_mapping_json json_dumps ordered mapping header_key)]
  else
    [print_noend (render_mapping_text header ordered mapping)].

Definition by_tag_section (a : args) (r : collected) : list chunk :=
  mapping_section a "Files by Tag" "# files_by_tag" "files_by_tag"
    (ordered_keys_from a (tags_counter r)) (tag_to_files r).

Definition by_cat_section (a : args) (r : collected) : list chunk :=
  mapping_section a "Files by Category" "# files_by_category" "files_by_category"
    (ordered_keys_from a (cats_counter r)) (cat_to_files r).

Definition footer : string :=
  Str.nl +:+ "Done. Need a tag merge/rename tool or fuzzy dup detector next? Say the word."
  +:+ Str.nl.

(** Everything [main] prints once [collect] has returned. *)
Definition report (a : args) (r : collected) : list chunk :=
  (if a_per_file a then print_per_file (file_usage r) else [])
  ++ (if a_summary a then summary_section a r else [])
  ++ (if a_singletons a then singletons_section a r else [])
  ++ (if a_by_tag a then by_tag_section a r else [])
  ++ (if a_by_cat a then by_cat_section a r else [])
  ++ (if String.eqb (a_format a) "text" && stdout_isatty then [print footer] else []).

Definition main (a : args) : run (list chunk) :=
  r <~ collect read_lines safe_load os_walk
         (a_dir a) (exts_of (a_ext a)) (a_ignore_drafts a) (file_paths_of (a_file a));
  run_ret (report a r).

End Main.

(** * The vocabulary of the specification *)

(** ** Normalisation *)

(** What [coerce_list] keeps of one element of a list: the normalised text of
    a string that is not blank, nothing of any other element. *)
Definition kept (v : yaml_value) : list string :=
  match v with
  | YStr x => if Str.nonempty (normalize x) then [normalize x] else []
  | _ => []
  end.


(** ** Orders *)

(** [a] may stand before [b] in a list sorted by [key]. *)
Definition key_le {A K : Type} (key : A -> K) (le : K -> K -> bool) (a b : A) : Prop :=
  le (key a) (key b) = true.

(** Descending count, ties by ascending name. *)
Definition count_before (a b : string * Z) : Prop :=
  b.2 < a.2 \/ (a.2 = b.2 /\ String.ltb a.1 b.1 = true).

(** Ascending name. *)
Definition alpha_before (a b : string * Z) : Prop :=
  String.ltb a.1 b.1 = true.

(** The entries that pass the threshold, before they are ordered. *)
Definition retained (counter : gmap string Z) (min_count : Z) : list (string * Z) :=
  List.filter (fun kv : string * Z => min_count <=? kv.2) (map_to_list counter).

Definition sorted_alpha (items : list (string * Z)) : list (string * Z) :=
  sort_by (fun kv : string * Z => kv.1) String.leb items.

Definition sorted_count (items : list (string * Z)) : list (string * Z) :=
  sort_by (fun kv : string * Z => (- kv.2, kv.1)) tuple_leb items.

(** ** The files of a collection *)

(** The kinds of file the collection meets. *)
Inductive file_class : Type :=
  | Unreadable (msg : string)                       (* the read failed *)
  | NoFrontMatter                                   (* no pair of marker lines *)
  | Unparseable (msg : string)                      (* the parser raised *)
  | EmptyMapping                                    (* the block has a false value *)
  | NotAMapping (v : yaml_value)                    (* a true value, not a mapping *)
  | Mapping (entries : list (yaml_value * yaml_value)).   (* a non-empty mapping *)

(** [Counter(names)[name]]: how often [name] occurs in [names]. *)
Definition occurrences (name : string) (names : list string) : Z :=
  Z.of_nat (length (List.filter (String.eqb name) names)).

(** The update of [collect] for a file with the given normalised lists. *)
Definition record_file (st : collected) (path : string) (tags cats : list string)
    : collected :=
  {| tags_counter := counter_update (tags_counter st) tags;
     cats_counter := counter_update (cats_counter st) cats;
     file_usage := <[path := Usage tags cats]> (file_usage st);
     tag_to_files := append_path path (tag_to_files st) tags;
     cat_to_files := append_path path (cat_to_files st) cats |}.

Section Classification.

Variable read_lines : string -> string + list string.
Variable safe_load : string -> string + yaml_value.

Definition classify (path : string) : file_class :=
  match read_lines path with
  | inl e => Unreadable e
  | inr lines =>
      let '(s, e) := is_front_matter_yaml lines in
      if s =? -1 then NoFrontMatter
      else match safe_load (Str.join "" (slice lines (s + 1) e)) with
           | inl err => Unparseable err
           | inr v =>
               if truthy v
               then match v with YMap entries => Mapping entries | _ => NotAMapping v end
               else EmptyMapping
           end
  end.

(** The normalised tags and categories a file adds to the aggregation:
    the file was read, its front matter is a non-empty mapping, and it is
    not a draft left out by the option. *)
Definition contribution (ignore_drafts : bool) (path : string)
    : option (list string * list string) :=
  match classify path with
  | Mapping entries =>
      if ignore_drafts && truthy (dict_get entries "draft" (YBool false)) then None
      else Some (coerce_list (dict_get entries "tags" YNull),
                 coerce_list (dict_get entries "categories" YNull))
  | _ => None
  end.

(** What a file makes the collection write to the diagnostic stream. *)
Definition warnings_of (path : string) : list warning :=
  match classify path with
  | Unreadable e => [ReadError path e]
  | Unparseable e => [YamlError path e]
  | _ => []
  end.

(** The files on which the loop raises. *)
Definition aborts (path : string) : bool :=
  match classify path with NotAMapping _ => true | _ => false end.

Definition step (ignore_drafts : bool) (st : collected) (path : string) : collected :=
  match contribution ignore_drafts path with
  | Some (tags, cats) => record_file st path tags cats
  | None => st
  end.

(** The normalised tag list, and category list, of a file that counts;
    nothing for any other file. *)
Definition tags_of (ignore_drafts : bool) (path : string) : list string :=
  match contribution ignore_drafts path with Some (t, _) => t | None => [] end.

Definition cats_of (ignore_drafts : bool) (path : string) : list string :=
  match contribution ignore_drafts path with Some (_, c) => c | None => [] end.

End Classification.

(** The counter and the inverse mapping go together: the same names, the
    count of a name is the length of its list, and no list is empty. *)
Definition linked (c : gmap string Z) (m : gmap string (list string)) : Prop :=
  forall n : string,
    c !! n = (fun l : list string => Z.of_nat (length l)) <$> (m !! n) /\
    m !! n <> Some [].

Definition linked_collected (r : collected) : Prop :=
  linked (tags_counter r) (tag_to_files r) /\ linked (cats_counter r) (cat_to_files r).

(** The reading of "at most one occurrence of a name in the usage record
    of a file". *)
Definition usage_without_duplicates (r : collected) : Prop :=
  forall (path : string) (u : usage) (name : string),
    file_usage r !! path = Some u ->
    occurrences name (u_tags u) <= 1 /\ occurrences name (u_categories u) <= 1.

(** ** The singleton listing and the mapping views *)

(** The same command line with other filters. *)
Definition with_filters (a : args) (sort : string) (min_count top : Z) : args :=
  {| a_dir := a_dir a; a_file := a_file a; a_ext := a_ext a;
     a_ignore_drafts := a_ignore_drafts a; a_per_file := a_per_file a;
     a_summary := a_summary a; a_singletons := a_singletons a;
     a_by_tag := a_by_tag a; a_by_cat := a_by_cat a; a_format := a_format a;
     a_sort := sort; a_min_count := min_count; a_top := top |}.

(** The content items that use a tag: the files whose usage record lists it. *)
Definition files_using_tag (r : collected) (name : string) : list string :=
  map fst
    (List.filter (fun pu : string * usage => existsb (String.eqb name) (u_tags pu.2))
       (map_to_list (file_usage r))).

(** The lines of one key in the text view. *)
Definition text_block (mapping : gmap string (list string)) (key : string) : list string :=
  [Str.nl +:+ key; times "-"%char (len key)]
  ++ map (fun path => "  " +:+ path) (sorted_strings (files_of mapping key)).

(** The lines of one key in the markdown view. *)
Definition markdown_block (mapping : gmap string (list string)) (key : string)
    : list string :=
  ["#### " +:+ key]
  ++ map (fun path => "- `" +:+ path +:+ "`") (sorted_strings (files_of mapping key))
  ++ [""].

(** The rows of one key in the CSV view. *)
Definition csv_block (mapping : gmap string (list string)) (key : string) : list string :=
  match sorted_strings (files_of mapping key) with
  | [] => [Str.dquote +:+ key +:+ Str.dquote +:+ ","]
  | files =>
      map (fun path => Str.dquote +:+ key +:+ Str.dquote +:+ ","
                       +:+ Str.dquote +:+ path +:+ Str.dquote) files
  end.

(** The member of one key in the JSON view. *)
Definition json_member (mapping : gmap string (list string)) (key : string)
    : string * json :=
  (key, JArr (map JStr (sorted_strings (files_of mapping key)))).

(** A mapping view written key by key: after the heading, the block of each
    key of [keys], in the order of [keys]. *)
Definition view_text (header : string) (keys : list string)
    (mapping : gmap string (list string)) : string :=
  match keys with
  | [] => Str.join Str.nl [header; times "="%char (len header); "(none)"] +:+ Str.nl
  | _ => Str.join Str.nl ([header; times "="%char (len header)]
                          ++ flat_map (text_block mapping) keys ++ [""])
  end.

Definition view_markdown (header : string) (keys : list string)
    (mapping : gmap string (list string)) : string :=
  match keys with
  | [] => Str.join Str.nl ["### " +:+ header; ""; "*(none)*"; ""]
  | _ => Str.join Str.nl (["### " +:+ header; ""] ++ flat_map (markdown_block mapping) keys)
  end.

Definition view_csv (keys : list string) (mapping : gmap string (list string)) : string :=
  Str.join Str.nl (["name,file"] ++ flat_map (csv_block mapping) keys) +:+ Str.nl.

Definition view_json (keys : list string) (mapping : gmap string (list string))
    (header_key : string) : json :=
  JObj [(header_key, JObj (map (json_member mapping) keys))].

Section Views.

Variable json_dumps : json -> string.

(** A mapping section written from the views: what the driver prints for
    the keys [keys]. *)
Definition mapping_view (fmt header comment header_key : string) (keys : list string)
    (mapping : gmap string (list string)) : list chunk :=
  if String.eqb fmt "markdown" then
    [Text (view_markdown header keys mapping +:+ Str.nl)]
  else if String.eqb fmt "csv" then
    [Text (comment +:+ Str.nl); Text (view_csv keys mapping)]
  else if String.eqb fmt "json" then
    [Text (json_dumps (view_json keys mapping header_key) +:+ Str.nl)]
  else
    [Text (view_text header keys mapping)].

End Views.

(** ** A small content tree *)

Module Fixture.

Definition ln (s : string) : string := s +:+ Str.nl.

Fixpoint assoc {V : Type} (k : string) (l : list (string * V)) : option V :=
  match l with
  | [] => None
  | (k', v) :: r => if String.eqb k' k then Some v else assoc k r
  end.

(** The files, by path: their lines, or the error of the read. *)
Definition files : list (string * (string + list string)) :=
  [("content/go.md",
    inr [ln "---"; ln "tags: [Go, go, Rust]"; ln "categories: backend"; ln "---";
         ln "Body."]);
   ("content/blank.md", inr [ln "---"; ln "  "; ln "---"; ln "Body."]);
   ("content/plain.md", inr [ln "No header here."]);
   ("content/locked.md", inl "[Errno 13] Permission denied");
   ("content/broken.md", inr [ln "---"; ln "tags: [a"; ln "---"]);
   ("content/draft.md", inr [ln "---"; ln "draft: true"; ln "tags: [wip]"; ln "---"]);
   ("site/x.md", inr [ln "---"; ln "tags: [x]"; ln "---"]);
   ("site/xy.md", inr [ln "---"; ln "tags: [x, y]"; ln "---"]);
   ("dups/dup.md", inr [ln "---"; ln "tags: [go, go]"; ln "---"]);
   ("bad/scalar.md", inr [ln "---"; ln "hello"; ln "---"; ln "Body."]);
   ("bad/go.md", inr [ln "---"; ln "tags: [go]"; ln "---"])].

(** The value [yaml.safe_load] gives for the blocks of these files. *)
Definition documents : list (string * (string + yaml_value)) :=
  [(ln "tags: [Go, go, Rust]" +:+ ln "categories: backend",
    inr (YMap [(YStr "tags", YList [YStr "Go"; YStr "go"; YStr "Rust"]);
               (YStr "categories", YStr "backend")]));
   (ln "  ", inr YNull);
   (ln "tags: [a", inl "while parsing a flow sequence");
   (ln "draft: true" +:+ ln "tags: [wip]",
    inr (YMap [(YStr "draft", YBool true); (YStr "tags", YList [YStr "wip"])]));
   (ln "tags: [x]", inr (YMap [(YStr "tags", YList [YStr "x"])]));
   (ln "tags: [x, y]", inr (YMap [(YStr "tags", YList [YStr "x"; YStr "y"])]));
   (ln "tags: [go, go]", inr (YMap [(YStr "tags", YList [YStr "go"; YStr "go"])]));
   (ln "hello", inr (YStr "hello"));
   (ln "tags: [go]", inr (YMap [(YStr "tags", YList [YStr "go"])]))].

Definition read_lines (path : string) : string + list string :=
  match assoc path files with
  | Some r => r
  | None => inl "[Errno 2] No such file or directory"
  end.

Definition safe_load (doc : string) : string + yaml_value :=
  match assoc doc documents with
  | Some r => r
  | None => inl "document outside the fixture"
  end.

Definition os_walk (top : string) : list (string * list string) :=
  if String.eqb top "content"
  then [("content", ["go.md"; "blank.md"; "plain.md"; "locked.md"; "broken.md";
                     "draft.md"; "notes.txt"])]
  else if String.eqb top "site" then [("site", ["x.md"; "xy.md"])]
  else if String.eqb top "dups" then [("dups", ["dup.md"])]
  else if String.eqb top "bad" then [("bad", ["go.md"; "scalar.md"])]
  else [].

Definition collect := collect read_lines safe_load os_walk.

(** [json.dumps] is not looked into: a constant text stands for it. *)
Definition json_dumps (j : json) : string := "{}".

Definition main := main read_lines safe_load os_walk json_dumps false.

Definition default_args : args :=
  {| a_dir := "./content"; a_file := None; a_ext := ".md"; a_ignore_drafts := false;
     a_per_file := false; a_summary := true; a_singletons := true;
     a_by_tag := false; a_by_cat := false; a_format := "text"; a_sort := "count";
     a_min_count := 0; a_top := 0 |}.

End Fixture.

(** The collection of the one file [content/go.md], whose header is
    [tags: [Go, go, Rust]] and [categories: backend]. *)
Definition go_result : collected :=
  {| tags_counter := <["go" := 2]> (<["rust" := 1]> ∅);
     cats_counter := <["backend" := 1]> ∅;
     file_usage := <["content/go.md" := Usage ["go"; "go"; "rust"] ["backend"]]> ∅;
     tag_to_files := <["go" := ["content/go.md"; "content/go.md"]]>
                       (<["rust" := ["content/go.md"]]> ∅);
     cat_to_files := <["backend" := ["content/go.md"]]> ∅ |}.

(** The collection of [site], with the headers [tags: [x]] and
    [tags: [x, y]]. *)
Definition site_result : collected :=
  {| tags_counter := <["x" := 2]> (<["y" := 1]> ∅);
     cats_counter := ∅;
     file_usage := <["site/x.md" := Usage ["x"] []]>
                     (<["site/xy.md" := Usage ["x"; "y"] []]> ∅);
     tag_to_files := <["x" := ["site/x.md"; "site/xy.md"]]>
                       (<["y" := ["site/xy.md"]]> ∅);
     cat_to_files := ∅ |}.

(** The collection of [dups], whose one file has the header
    [tags: [go, go]]. *)
Definition dups_result : collected :=
  {| tags_counter := <["go" := 2]> ∅;
     cats_counter := ∅;
     file_usage := <["dups/dup.md" := Usage ["go"; "go"] []]> ∅;
     tag_to_files := <["go" := ["dups/dup.md"; "dups/dup.md"]]> ∅;
     cat_to_files := ∅ |}.

(** ** Further vocabulary *)

(** A marker line of the front matter: [line.strip() == "---"]. *)
Definition is_marker (line : string) : bool := String.eqb (Str.strip line) "---".

(** The same command line with another directory and other extensions. *)
Definition with_scope (a : args) (dir ext : string) : args :=
  {| a_dir := dir; a_file := a_file a; a_ext := ext;
     a_ignore_drafts := a_ignore_drafts a; a_per_file := a_per_file a;
     a_summary := a_summary a; a_singletons := a_singletons a;
     a_by_tag := a_by_tag a; a_by_cat := a_by_cat a; a_format := a_format a;
     a_sort := a_sort a; a_min_count := a_min_count a; a_top := a_top a |}.

(** The command line [--file content/go.md --format csv]. *)
Definition go_file_args : args :=
  {| a_dir := "./content"; a_file := Some "content/go.md"; a_ext := ".md";
     a_ignore_drafts := false; a_per_file := false; a_summary := true;
     a_singletons := true; a_by_tag := false; a_by_cat := false;
     a_format := "csv"; a_sort := "count"; a_min_count := 0; a_top := 0 |}.

(** How many times [name] stands in [names], as a number of repetitions. *)
Definition times_listed (name : string) (names : list string) : nat :=
  length (List.filter (String.eqb name) names).

(** Two inverse mappings that list the same paths for every name, up to
    the order of the paths. *)
Definition same_paths (m m' : gmap string (list string)) : Prop :=
  forall name : string, Permutation (files_of m name) (files_of m' name).

(** The collection of [content] with its drafts. *)
Definition content_result : collected :=
  {| tags_counter := <["go" := 2]> (<["rust" := 1]> (<["wip" := 1]> ∅));
     cats_counter := <["backend" := 1]> ∅;
     file_usage :=
       <["content/go.md" := Usage ["go"; "go"; "rust"] ["backend"]]>
         (<["content/draft.md" := Usage ["wip"] []]> ∅);
     tag_to_files := <["go" := ["content/go.md"; "content/go.md"]]>
                       (<["rust" := ["content/go.md"]]>
                          (<["wip" := ["content/draft.md"]]> ∅));
     cat_to_files := <["backend" := ["content/go.md"]]> ∅ |}.

(** The widths of the two columns of the text table. *)
Definition table_width_item (rows : list (string * Z)) (header : string) : Z :=
  max_of (fun r : string * Z => len r.1) (len header) rows.

Definition table_width_cnt (rows : list (string * Z)) : Z :=
  max_of (fun r : string * Z => len (str_of_int r.2)) 5 rows.

(** The line of one row of the text table. *)
Definition table_text_row (width_cnt width_item : Z) (r : string * Z) : string :=
  rjust (str_of_int r.2) width_cnt +:+ "  " +:+ ljust r.1 width_item.

(** The column heading and the rule under it, then the rows. *)
Definition table_text_body (rows : list (string * Z)) (header : string) : list string :=
  let width_item := table_width_item rows header in
  let width_cnt := table_width_cnt rows in
  [rjust "count" width_cnt +:+ "  " +:+ ljust "name" width_item;
   times "-"%char width_cnt +:+ "  " +:+ times "-"%char width_item]
  ++ map (table_text_row width_cnt width_item) rows.

(** The names of a usage record as the per-file listing shows them. *)
Definition shown_names (l : list string) : string :=
  match l with [] => "(none)" | _ => Str.join ", " l end.

(** The three lines of one file in the per-file listing. *)
Definition per_file_block (entry : string * usage) : list chunk :=
  [Text ((entry.1 +:+ ":") +:+ Str.nl);
   Text (("    tags: " +:+ shown_names (u_tags entry.2)) +:+ Str.nl);
   Text (("    categories: " +:+ shown_names (u_categories entry.2)) +:+ Str.nl)].

(** [name.replace] of the CSV table: every quote becomes two quotes. *)
Definition csv_escape (name : string) : string :=
  replace_char (ascii_of_N 34) (Str.dquote +:+ Str.dquote) name.

(** The line of one row of the CSV table. *)
Definition csv_row (r : string * Z) : string :=
  str_of_int r.2 +:+ "," +:+ Str.dquote +:+ csv_escape r.1 +:+ Str.dquote.

(** The quotes of [s] come in pairs. *)
Fixpoint quotes_paired (s : string) : bool :=
  match s with
  | EmptyString => true
  | String c r =>
      if Ascii.eqb c (ascii_of_N 34)
      then match r with
           | String c' r' => Ascii.eqb c' (ascii_of_N 34) && quotes_paired r'
           | EmptyString => false
           end
      else quotes_paired r
  end.

(** The command line [--dir site --by-tag --no-summary --no-singletons
    --format csv --min-count 2]. *)
Definition site_by_tag_args : args :=
  {| a_dir := "site"; a_file := None; a_ext := ".md"; a_ignore_drafts := false;
     a_per_file := false; a_summary := false; a_singletons := false;
     a_by_tag := true; a_by_cat := false; a_format := "csv"; a_sort := "count";
     a_min_count := 2; a_top := 0 |}.

(** * Properties *)

(** ** Normalisation *)

Module StrFacts.
Import Str.

Ltac all_chars c := destruct c as [[] [] [] [] [] [] [] []]; reflexivity.

Lemma lower_char_idem (c : ascii) : lower_char (lower_char c) = lower_char c.
Proof. all_chars c. Qed.

Lemma is_space_lower_char (c : ascii) : is_space (lower_char c) = is_space c.
Proof. all_chars c. Qed.

Lemma lower_idem (s : string) : lower (lower s) = lower s.
Proof.
  induction s as [|c r IH]; simpl; [reflexivity|].
  now rewrite lower_char_idem, IH.
Qed.

Lemma lstrip_lower (s : string) : lstrip (lower s) = lower (lstrip s).
Proof.
  induction s as [|c r IH]; simpl; [reflexivity|].
  rewrite is_space_lower_char. now destruct (is_space c).
Qed.

Lemma rstrip_lower (s : string) : rstrip (lower s) = lower (rstrip s).
Proof.
  induction s as [|c r IH]; simpl; [reflexivity|].
  rewrite IH, is_space_lower_char.
  destruct (rstrip r); simpl; [now destruct (is_space c)|reflexivity].
Qed.

Lemma strip_lower (s : string) : strip (lower s) = lower (strip s).
Proof. unfold strip. now rewrite lstrip_lower, rstrip_lower. Qed.

Lemma rstrip_idem (s : string) : rstrip (rstrip s) = rstrip s.
Proof.
  induction s as [|c r IH]; simpl; [reflexivity|].
  destruct (rstrip r) as [|c' r'] eqn:E.
  - destruct (is_space c) eqn:Hc; simpl; [reflexivity|now rewrite Hc].
  - change (rstrip (String c (String c' r')))
      with (match rstrip (String c' r') with
            | EmptyString => if is_space c then EmptyString else String c EmptyString
            | x => String c x
            end).
    now rewrite IH.
Qed.

(** A string that does not start with white space keeps its head under
    [rstrip]. *)
Lemma lstrip_rstrip_lstrip (s : string) :
  lstrip (rstrip (lstrip s)) = rstrip (lstrip s).
Proof.
  induction s as [|c r IH]; simpl; [reflexivity|].
  destruct (is_space c) eqn:Hc; [exact IH|].
  cbn [rstrip]. destruct (rstrip r); [rewrite Hc|]; cbn [lstrip]; now rewrite Hc.
Qed.

Lemma strip_idem (s : string) : strip (strip s) = strip s.
Proof. unfold strip. now rewrite lstrip_rstrip_lstrip, rstrip_idem. Qed.

Lemma normalize_idem (s : string) : normalize (normalize s) = normalize s.
Proof. unfold normalize. now rewrite strip_lower, strip_idem, lower_idem. Qed.

Lemma normalize_lower (s : string) : normalize (lower s) = normalize s.
Proof. unfold normalize. now rewrite strip_lower, lower_idem. Qed.

End StrFacts.

Lemma coerce_items_app (items : list yaml_value) (out : list string) :
  fold_left coerce_item items out = out ++ flat_map kept items.
Proof.
  revert out. induction items as [|v items IH]; intros out; simpl.
  - now rewrite app_nil_r.
  - rewrite IH. destruct v; simpl; try reflexivity.
    destruct (Str.nonempty (normalize s)); simpl; [|reflexivity].
    now rewrite <- app_assoc.
Qed.

Lemma coerce_list_YList (items : list yaml_value) :
  coerce_list (YList items) = flat_map kept items.
Proof.
  unfold coerce_list. destruct items as [|v items]; [reflexivity|].
  cbn [truthy negb]. now rewrite coerce_items_app.
Qed.

Lemma coerce_list_YStr (x : string) : coerce_list (YStr x) = kept (YStr x).
Proof.
  unfold coerce_list, kept. destruct x as [|c r]; [reflexivity|]. reflexivity.
Qed.

Lemma kept_fixed (v : yaml_value) :
  Forall (fun s => normalize s = s /\ Str.nonempty s = true) (kept v).
Proof.
  destruct v; simpl; try constructor.
  destruct (Str.nonempty (normalize s)) eqn:E; constructor; [|constructor].
  split; [apply StrFacts.normalize_idem|exact E].
Qed.

Lemma coerce_list_fixed (v : yaml_value) :
  Forall (fun s => normalize s = s /\ Str.nonempty s = true) (coerce_list v).
Proof.
  assert (Hnil : forall P : string -> Prop, Forall P (@nil string)) by constructor.
  destruct v as [| | | |x| | |items| |];
    try (unfold coerce_list; destruct (negb (truthy _)); now apply Hnil).
  - rewrite coerce_list_YStr. apply kept_fixed.
  - rewrite coerce_list_YList. induction items as [|v items IH]; simpl; [constructor|].
    apply Forall_app; split; [apply kept_fixed|exact IH].
Qed.

Lemma flat_map_kept_fixed (l : list string) :
  Forall (fun s => normalize s = s /\ Str.nonempty s = true) l ->
  flat_map kept (map YStr l) = l.
Proof.
  induction 1 as [|s l [Hn He] _ IH]; simpl; [reflexivity|].
  rewrite Hn, He. simpl. now rewrite IH.
Qed.

(** C7: the normalisation is idempotent, on a string ([normalize]) and on
    a whole field ([coerce_list] applied to a list it has produced, or to
    one of the strings it has produced), and it ignores the case: "Go",
    "go " and "GO" all become "go". *)
Theorem C7_normalization_idempotent :
  (forall s : string, normalize (normalize s) = normalize s) /\
  (forall s : string, normalize (Str.lower s) = normalize s) /\
  (forall v : yaml_value, coerce_list (YList (map YStr (coerce_list v))) = coerce_list v) /\
  (forall v : yaml_value, Forall (fun s => coerce_list (YStr s) = [s]) (coerce_list v)) /\
  (forall s : string, coerce_list (YStr (normalize s)) = coerce_list (YStr s)) /\
  coerce_list (YStr "Go") = ["go"] /\
  coerce_list (YStr "go ") = ["go"] /\
  coerce_list (YStr "GO") = ["go"] /\
  coerce_list (YList [YStr "Go"; YStr "go "; YStr "GO"]) = ["go"; "go"; "go"].
Proof.
  split; [exact StrFacts.normalize_idem|].
  split; [exact StrFacts.normalize_lower|].
  split.
  { intros v. rewrite coerce_list_YList.
    apply flat_map_kept_fixed. apply coerce_list_fixed. }
  split.
  { intros v. eapply Forall_impl; [apply coerce_list_fixed|].
    intros s [Hn He]. rewrite coerce_list_YStr. simpl. now rewrite Hn, He. }
  split.
  { intros s. rewrite !coerce_list_YStr. simpl.
    now rewrite StrFacts.normalize_idem. }
  repeat split; reflexivity.
Qed.




(** ** The stable sort *)

Section SortFacts.

Context {A K : Type} (key : A -> K) (le : K -> K -> bool).

#[local] Abbreviation key_le := (key_le key le).

Lemma insert_by_Permutation (x : A) (l : list A) :
  Permutation (insert_by key le x l) (x :: l).
Proof.
  induction l as [|y r IH]; simpl; [reflexivity|].
  destruct (le (key x) (key y)); [reflexivity|].
  rewrite IH. apply perm_swap.
Qed.

Lemma sort_by_Permutation (l : list A) : Permutation (sort_by key le l) l.
Proof.
  induction l as [|x l IH]; simpl; [reflexivity|].
  rewrite insert_by_Permutation. now constructor.
Qed.

Hypothesis le_total : forall a b, le a b = true \/ le b a = true.

Lemma insert_by_Sorted (x : A) (l : list A) :
  Sorted key_le l -> Sorted key_le (insert_by key le x l).
Proof.
  induction 1 as [|y r Hr IH Hhd]; simpl.
  - repeat constructor.
  - destruct (le (key x) (key y)) eqn:E.
    + constructor; [now constructor|]. constructor. exact E.
    + constructor; [exact IH|].
      assert (Hyx : key_le y x)
        by (destruct (le_total (key x) (key y)) as [H|H]; [congruence|exact H]).
      destruct r as [|z r']; simpl; [now constructor|].
      destruct (le (key x) (key z)); constructor; [exact Hyx|].
      now inversion Hhd.
Qed.

Lemma sort_by_Sorted (l : list A) : Sorted key_le (sort_by key le l).
Proof.
  induction l as [|x l IH]; simpl; [constructor|]. now apply insert_by_Sorted.
Qed.

Hypothesis le_trans : forall a b c, le a b = true -> le b c = true -> le a c = true.

Lemma sort_by_StronglySorted (l : list A) : StronglySorted key_le (sort_by key le l).
Proof.
  apply Sorted_StronglySorted; [|apply sort_by_Sorted].
  intros a b c. unfold key_le. apply le_trans.
Qed.

End SortFacts.

(** Two entries of a sorted list of items with pairwise distinct names have
    distinct names. *)
Lemma StronglySorted_distinct_names {V : Type} (R : string * V -> string * V -> Prop)
    (l : list (string * V)) :
  StronglySorted R l -> NoDup (map fst l) ->
  StronglySorted (fun a b => R a b /\ a.1 <> b.1) l.
Proof.
  induction 1 as [|a l Hl IH Ha]; intros Hnd; [constructor|].
  simpl in Hnd. apply NoDup_cons in Hnd as [Hnotin Hnd].
  constructor; [now apply IH|].
  rewrite List.Forall_forall in *. intros b Hb. split; [now apply Ha|].
  intros Heq. apply Hnotin. rewrite Heq. apply list_elem_of_In. now apply in_map.
Qed.

Lemma StronglySorted_impl {X : Type} (R S : X -> X -> Prop) (l : list X) :
  (forall a b, R a b -> S a b) -> StronglySorted R l -> StronglySorted S l.
Proof.
  intros HRS. induction 1 as [|a l Hl IH Ha]; constructor; [exact IH|].
  eapply List.Forall_impl; [|exact Ha]. intros b. apply HRS.
Qed.

Lemma string_leb_trans (a b c : string) :
  String.leb a b = true -> String.leb b c = true -> String.leb a c = true.
Proof.
  intros H1 H2. apply Is_true_true. apply Is_true_true in H1, H2.
  exact (@transitivity _ String.le _ a b c H1 H2).
Qed.

Lemma string_leb_ne_ltb (a b : string) :
  String.leb a b = true -> a <> b -> String.ltb a b = true.
Proof.
  unfold String.leb, String.ltb. intros H Hne.
  destruct (String.compare a b) eqn:E; try congruence.
  now apply String.compare_eq_iff in E.
Qed.

Lemma tuple_leb_total (a b : Z * string) : tuple_leb a b = true \/ tuple_leb b a = true.
Proof.
  unfold tuple_leb. destruct (String.leb_total a.2 b.2) as [H|H]; rewrite H;
    destruct (Z.ltb_spec a.1 b.1), (Z.ltb_spec b.1 a.1),
             (Z.eqb_spec a.1 b.1), (Z.eqb_spec b.1 a.1); simpl; auto; lia.
Qed.

Lemma tuple_leb_trans (a b c : Z * string) :
  tuple_leb a b = true -> tuple_leb b c = true -> tuple_leb a c = true.
Proof.
  unfold tuple_leb. intros H1 H2.
  destruct (Z.ltb_spec a.1 b.1), (Z.eqb_spec a.1 b.1); simpl in H1; try discriminate;
    destruct (Z.ltb_spec b.1 c.1), (Z.eqb_spec b.1 c.1); simpl in H2; try discriminate;
    destruct (Z.ltb_spec a.1 c.1), (Z.eqb_spec a.1 c.1); simpl; try reflexivity; try lia.
  eapply string_leb_trans; eassumption.
Qed.

(** ** The filter/sort engine *)

Lemma In_retained (counter : gmap string Z) (min_count : Z) (k : string) (v : Z) :
  In (k, v) (retained counter min_count) <-> counter !! k = Some v /\ min_count <= v.
Proof.
  unfold retained. rewrite filter_In, <- list_elem_of_In, elem_of_map_to_list.
  simpl. now rewrite Z.leb_le.
Qed.

Lemma NoDup_filter_fst {V : Type} (f : string * V -> bool) (l : list (string * V)) :
  NoDup (map fst l) -> NoDup (map fst (List.filter f l)).
Proof.
  induction l as [|a l IH]; simpl; [trivial|].
  intros Hnd. apply NoDup_cons in Hnd as [Hnotin Hnd].
  destruct (f a); simpl; [|now apply IH].
  apply NoDup_cons. split; [|now apply IH].
  intros Hin. apply Hnotin. apply list_elem_of_In in Hin. apply list_elem_of_In.
  apply in_map_iff in Hin as [b [Hb Hin]]. apply filter_In in Hin as [Hin _].
  rewrite <- Hb. now apply in_map.
Qed.

Lemma NoDup_names_Permutation {V : Type} (l l' : list (string * V)) :
  Permutation l l' -> NoDup (map fst l) -> NoDup (map fst l').
Proof.
  intros Hp Hnd. apply NoDup_ListNoDup. apply NoDup_ListNoDup in Hnd.
  eapply Permutation_NoDup; [|exact Hnd]. now apply Permutation_map.
Qed.

Lemma NoDup_retained (counter : gmap string Z) (min_count : Z) :
  NoDup (map fst (retained counter min_count)).
Proof. apply NoDup_filter_fst, NoDup_fst_map_to_list. Qed.

Lemma sort_and_filter_eq (counter : gmap string Z) (mode : string) (min_count top : Z) :
  sort_and_filter counter mode min_count top =
  let ordered := if String.eqb mode "alpha"
                 then sorted_alpha (retained counter min_count)
                 else sorted_count (retained counter min_count) in
  if 0 <? top then firstn (Z.to_nat top) ordered else ordered.
Proof. reflexivity. Qed.

Lemma sorted_alpha_ordered (items : list (string * Z)) :
  NoDup (map fst items) -> StronglySorted alpha_before (sorted_alpha items).
Proof.
  intros Hnd.
  eapply StronglySorted_impl;
    [|apply StronglySorted_distinct_names;
      [apply (sort_by_StronglySorted _ _ String.leb_total string_leb_trans)|]].
  - intros a b [Hle Hne]. now apply string_leb_ne_ltb.
  - eapply NoDup_names_Permutation; [|exact Hnd].
    symmetry. apply sort_by_Permutation.
Qed.

Lemma sorted_count_ordered (items : list (string * Z)) :
  NoDup (map fst items) -> StronglySorted count_before (sorted_count items).
Proof.
  intros Hnd.
  eapply StronglySorted_impl;
    [|apply StronglySorted_distinct_names;
      [apply (sort_by_StronglySorted _ _ tuple_leb_total tuple_leb_trans)|]].
  - intros a b [Hle Hne]. unfold key_le, tuple_leb in Hle. simpl in Hle.
    unfold count_before.
    destruct (Z.ltb_spec (- a.2) (- b.2)); [left; lia|].
    destruct (Z.eqb_spec (- a.2) (- b.2)); simpl in Hle; [|discriminate].
    right. split; [lia|]. now apply string_leb_ne_ltb.
  - eapply NoDup_names_Permutation; [|exact Hnd].
    symmetry. apply sort_by_Permutation.
Qed.

Lemma sort_and_filter_unlimited_Permutation (counter : gmap string Z) (mode : string)
    (min_count : Z) :
  Permutation (sort_and_filter counter mode min_count 0) (retained counter min_count).
Proof.
  rewrite sort_and_filter_eq. simpl.
  destruct (String.eqb mode "alpha"); apply sort_by_Permutation.
Qed.

(** C3: without a limit the result holds exactly the entries of the
    mapping whose count reaches the threshold, each once; it is ordered by
    descending count and then ascending name, or by ascending name alone in
    the mode "alpha"; with a limit [top > 0] the result is the first [top]
    entries of that ordered list. *)
Theorem C3_sort_and_filter (counter : gmap string Z) (mode : string)
    (min_count top : Z) :
  let full := sort_and_filter counter mode min_count 0 in
  (forall k v, In (k, v) full <-> counter !! k = Some v /\ min_count <= v) /\
  NoDup (map fst full) /\
  StronglySorted (if String.eqb mode "alpha" then alpha_before else count_before) full /\
  StronglySorted count_before (sort_and_filter counter "count" min_count 0) /\
  StronglySorted alpha_before (sort_and_filter counter "alpha" min_count 0) /\
  sort_and_filter counter mode min_count top =
    (if 0 <? top then firstn (Z.to_nat top) full else full).
Proof.
  intros full.
  assert (Hperm := sort_and_filter_unlimited_Permutation counter mode min_count).
  fold full in Hperm.
  split.
  { intros k v. rewrite <- In_retained. split; apply Permutation_in;
      [exact Hperm|symmetry; exact Hperm]. }
  split.
  { eapply NoDup_names_Permutation; [|apply (NoDup_retained counter min_count)].
    symmetry. exact Hperm. }
  split.
  { subst full. rewrite sort_and_filter_eq. simpl.
    destruct (String.eqb mode "alpha");
      [apply sorted_alpha_ordered|apply sorted_count_ordered]; apply NoDup_retained. }
  split; [apply sorted_count_ordered, NoDup_retained|].
  split; [apply sorted_alpha_ordered, NoDup_retained|].
  reflexivity.
Qed.

Example sort_and_filter_count :
  sort_and_filter (<["rust" := 1]> (<["go" := 2]> (<["ada" := 2]> (<["c" := 5]> ∅))))
    "count" 2 2 = [("c", 5); ("ada", 2)].
Proof. vm_compute. reflexivity. Qed.

Example sort_and_filter_alpha :
  sort_and_filter (<["rust" := 1]> (<["go" := 2]> (<["ada" := 2]> (<["c" := 5]> ∅))))
    "alpha" 0 0 = [("ada", 2); ("c", 5); ("go", 2); ("rust", 1)].
Proof. vm_compute. reflexivity. Qed.

(** ** The collection loop *)

Section CollectFacts.

Variable read_lines : string -> string + list string.
Variable safe_load : string -> string + yaml_value.

#[local] Abbreviation classify := (classify read_lines safe_load).
#[local] Abbreviation contribution := (contribution read_lines safe_load).
#[local] Abbreviation warnings_of := (warnings_of read_lines safe_load).
#[local] Abbreviation aborts := (aborts read_lines safe_load).
#[local] Abbreviation step := (step read_lines safe_load).

Lemma read_front_matter_classify (path : string) :
  read_front_matter read_lines safe_load path =
  match classify path with
  | Unreadable e => ([ReadError path e], Some None)
  | Unparseable e => ([YamlError path e], Some None)
  | NoFrontMatter | EmptyMapping => ([], Some (Some (YMap [])))
  | NotAMapping v => ([], Some (Some v))
  | Mapping entries => ([], Some (Some (YMap entries)))
  end.
Proof.
  unfold read_front_matter, classify.
  destruct (read_lines path) as [e|lines]; [reflexivity|].
  destruct (is_front_matter_yaml lines) as [s e].
  destruct (s =? -1); [reflexivity|].
  destruct (safe_load _) as [err|v]; [reflexivity|].
  destruct (truthy v) eqn:Hv; [|reflexivity].
  destruct v; reflexivity.
Qed.

Lemma classify_Mapping_nonempty (path : string) entries :
  classify path = Mapping entries -> entries <> [].
Proof.
  unfold classify. destruct (read_lines path) as [e|lines]; [discriminate|].
  destruct (is_front_matter_yaml lines) as [s e].
  destruct (s =? -1); [discriminate|].
  destruct (safe_load _) as [err|v]; [discriminate|].
  destruct (truthy v) eqn:Hv; [|discriminate].
  destruct v; try discriminate. intros [= <-]. now destruct entries0.
Qed.

Lemma classify_NotAMapping (path : string) v :
  classify path = NotAMapping v ->
  truthy v = true /\ forall entries, v <> YMap entries.
Proof.
  unfold classify. destruct (read_lines path) as [e|lines]; [discriminate|].
  destruct (is_front_matter_yaml lines) as [s e].
  destruct (s =? -1); [discriminate|].
  destruct (safe_load _) as [err|v']; [discriminate|].
  destruct (truthy v') eqn:Hv; [|discriminate].
  destruct v'; try discriminate; intros [= <-]; (split; [exact Hv|discriminate]).
Qed.

(** The body of the loop, by the kind of the file. *)
Lemma collect_file_classify (ignore_drafts : bool) (st : collected) (path : string) :
  collect_file read_lines safe_load ignore_drafts st path =
  (warnings_of path,
   if aborts path then None else Some (step ignore_drafts st path)).
Proof.
  unfold collect_file, warnings_of, aborts, step, contribution.
  rewrite read_front_matter_classify.
  destruct (classify path) as [e| |e| |v|entries] eqn:Hc; try reflexivity.
  - apply classify_NotAMapping in Hc as [Hv Hm].
    destruct v; try discriminate Hv; try (destruct ignore_drafts; reflexivity).
    now destruct (Hm entries).
  - apply classify_Mapping_nonempty in Hc.
    destruct entries as [|en entries]; [congruence|].
    cbn [is_empty_dict run_bind run_ret get app].
    destruct ignore_drafts; cbn [run_bind run_ret get app andb]; [|reflexivity].
    destruct (truthy (dict_get (en :: entries) "draft" (YBool false))); reflexivity.
Qed.

(** The loop raises on the first file that is not a mapping, and runs
    through otherwise. *)
Lemma collect_loop_classify (ignore_drafts : bool) (paths : list string)
    (st : collected) :
  if existsb aborts paths
  then (collect_loop read_lines safe_load ignore_drafts paths st).2 = None
  else collect_loop read_lines safe_load ignore_drafts paths st =
       (flat_map warnings_of paths, Some (fold_left (step ignore_drafts) paths st)).
Proof.
  revert st. induction paths as [|p paths IH]; intros st; [reflexivity|].
  cbn [collect_loop existsb]. rewrite collect_file_classify.
  destruct (aborts p) eqn:Hp; [reflexivity|].
  cbn [run_bind orb]. specialize (IH (step ignore_drafts st p)).
  destruct (existsb aborts paths).
  - destruct (collect_loop _ _ _ paths _) as [w r]. simpl in IH. now subst r.
  - now rewrite IH.
Qed.

Lemma collect_loop_Some (ignore_drafts : bool) (paths : list string)
    (st : collected) (w : list warning) (r : collected) :
  collect_loop read_lines safe_load ignore_drafts paths st = (w, Some r) ->
  existsb aborts paths = false /\
  w = flat_map warnings_of paths /\
  r = fold_left (step ignore_drafts) paths st.
Proof.
  intros H. pose proof (collect_loop_classify ignore_drafts paths st) as Hc.
  destruct (existsb aborts paths).
  - rewrite H in Hc. discriminate.
  - rewrite H in Hc. injection Hc as -> ->. auto.
Qed.

End CollectFacts.

(** ** Counters and inverse mappings *)

Lemma occurrences_cons (n x : string) (names : list string) :
  occurrences n (x :: names) = (if String.eqb n x then 1 else 0) + occurrences n names.
Proof.
  unfold occurrences. simpl. destruct (String.eqb n x); simpl length; lia.
Qed.

Lemma occurrences_app (n : string) (l1 l2 : list string) :
  occurrences n (l1 ++ l2) = occurrences n l1 + occurrences n l2.
Proof.
  induction l1 as [|x l1 IH]; [reflexivity|].
  change ((x :: l1) ++ l2) with (x :: (l1 ++ l2)). rewrite !occurrences_cons, IH. lia.
Qed.

Lemma occurrences_nonneg (n : string) (names : list string) : 0 <= occurrences n names.
Proof. unfold occurrences. lia. Qed.

Lemma occurrences_pos_In (n : string) (names : list string) :
  0 < occurrences n names <-> In n names.
Proof.
  induction names as [|x names IH]; [unfold occurrences; simpl; split; [lia|tauto]|].
  rewrite occurrences_cons. simpl. pose proof (occurrences_nonneg n names).
  destruct (String.eqb_spec n x) as [->|Hne].
  - split; [auto|lia].
  - rewrite Z.add_0_l, IH. split; [auto|]. intros [Hx|Hin]; [congruence|exact Hin].
Qed.

Lemma count_of_insert (c : gmap string Z) (x n : string) (v : Z) :
  count_of (<[x := v]> c) n = if String.eqb n x then v else count_of c n.
Proof.
  unfold count_of. destruct (String.eqb_spec n x) as [->|Hne].
  - now rewrite lookup_insert_eq.
  - rewrite lookup_insert_ne; [reflexivity|congruence].
Qed.

(** [Counter.update] adds to each name the number of its occurrences. *)
Lemma count_of_counter_update (c : gmap string Z) (names : list string) (n : string) :
  count_of (counter_update c names) n = count_of c n + occurrences n names.
Proof.
  unfold counter_update. revert c.
  induction names as [|x names IH]; intros c; simpl.
  - unfold occurrences. simpl. lia.
  - rewrite IH, count_of_insert, occurrences_cons.
    destruct (String.eqb_spec n x) as [->|Hne]; lia.
Qed.

Lemma counter_update_app (c : gmap string Z) (l1 l2 : list string) :
  counter_update c (l1 ++ l2) = counter_update (counter_update c l1) l2.
Proof. unfold counter_update. apply fold_left_app. Qed.

Lemma append_path_app (path : string) (m : gmap string (list string))
    (l1 l2 : list string) :
  append_path path m (l1 ++ l2) = append_path path (append_path path m l1) l2.
Proof. unfold append_path. apply fold_left_app. Qed.

Lemma linked_empty : linked ∅ ∅.
Proof. intros n. rewrite !lookup_empty. split; [reflexivity|discriminate]. Qed.

Lemma linked_count_of (c : gmap string Z) (m : gmap string (list string)) (n : string) :
  linked c m -> count_of c n = Z.of_nat (length (files_of m n)).
Proof.
  intros H. destruct (H n) as [Hc _]. unfold count_of, files_of.
  rewrite Hc. now destruct (m !! n).
Qed.

Lemma linked_update (path : string) (names : list string) (c : gmap string Z)
    (m : gmap string (list string)) :
  linked c m -> linked (counter_update c names) (append_path path m names).
Proof.
  unfold counter_update, append_path. revert c m.
  induction names as [|x names IH]; intros c m H; simpl; [exact H|].
  apply IH. intros n. destruct (decide (x = n)) as [->|Hne].
  - rewrite !lookup_insert_eq. simpl. split.
    + rewrite (linked_count_of c m n H), length_app. simpl. f_equal. lia.
    + intros [= Heq]. now destruct (files_of m n).
  - rewrite !lookup_insert_ne by exact Hne. apply H.
Qed.

Lemma linked_record_file (st : collected) (path : string) (tags cats : list string) :
  linked_collected st -> linked_collected (record_file st path tags cats).
Proof. intros [Ht Hc]. split; simpl; now apply linked_update. Qed.

Lemma linked_lookup (c : gmap string Z) (m : gmap string (list string)) (n : string) :
  linked c m ->
  (forall v, c !! n = Some v ->
     exists files, m !! n = Some files /\ v = Z.of_nat (length files) /\ 0 < v) /\
  (forall files, m !! n = Some files ->
     c !! n = Some (Z.of_nat (length files)) /\ 0 < Z.of_nat (length files) /\ files <> []).
Proof.
  intros H. destruct (H n) as [Hc Hne]. split.
  - intros v Hv. rewrite Hv in Hc. destruct (m !! n) as [files|]; [|discriminate].
    simpl in Hc. injection Hc as ->. exists files. repeat split.
    destruct files; [congruence|simpl; lia].
  - intros files Hf. rewrite Hf in Hc, Hne. simpl in Hc. repeat split; [exact Hc| |congruence].
    destruct files; [congruence|simpl; lia].
Qed.

(** ** What a completed collection holds *)

Section CollectResults.

Variable read_lines : string -> string + list string.
Variable safe_load : string -> string + yaml_value.
Variable os_walk : string -> list (string * list string).

#[local] Abbreviation contribution := (contribution read_lines safe_load).
#[local] Abbreviation step := (step read_lines safe_load).
#[local] Abbreviation classify := (classify read_lines safe_load).
#[local] Abbreviation aborts := (aborts read_lines safe_load).
#[local] Abbreviation warnings_of := (warnings_of read_lines safe_load).
#[local] Abbreviation collect := (collect read_lines safe_load os_walk).
#[local] Abbreviation collect_paths := (collect_paths os_walk).
#[local] Abbreviation tags_of := (tags_of read_lines safe_load).
#[local] Abbreviation cats_of := (cats_of read_lines safe_load).

Lemma step_tags_counter ig st p :
  tags_counter (step ig st p) = counter_update (tags_counter st) (tags_of ig p).
Proof. unfold step, tags_of. now destruct (contribution ig p) as [[t c]|]. Qed.

Lemma step_cats_counter ig st p :
  cats_counter (step ig st p) = counter_update (cats_counter st) (cats_of ig p).
Proof. unfold step, cats_of. now destruct (contribution ig p) as [[t c]|]. Qed.

Lemma fold_step_tags_counter ig paths st :
  tags_counter (fold_left (step ig) paths st)
  = counter_update (tags_counter st) (flat_map (tags_of ig) paths).
Proof.
  revert st. induction paths as [|p paths IH]; intros st; [reflexivity|].
  cbn [fold_left flat_map]. now rewrite IH, step_tags_counter, counter_update_app.
Qed.

Lemma fold_step_cats_counter ig paths st :
  cats_counter (fold_left (step ig) paths st)
  = counter_update (cats_counter st) (flat_map (cats_of ig) paths).
Proof.
  revert st. induction paths as [|p paths IH]; intros st; [reflexivity|].
  cbn [fold_left flat_map]. now rewrite IH, step_cats_counter, counter_update_app.
Qed.

Lemma step_linked ig st p : linked_collected st -> linked_collected (step ig st p).
Proof.
  intros H. unfold step. destruct (contribution ig p) as [[t c]|]; [|exact H].
  now apply linked_record_file.
Qed.

Lemma fold_step_linked ig paths st :
  linked_collected st -> linked_collected (fold_left (step ig) paths st).
Proof.
  revert st. induction paths as [|p paths IH]; intros st H; [exact H|].
  apply IH. now apply step_linked.
Qed.

Lemma step_file_usage ig st q p :
  file_usage (step ig st q) !! p =
  if decide (q = p)
  then match contribution ig p with
       | Some (t, c) => Some (Usage t c)
       | None => file_usage st !! p
       end
  else file_usage st !! p.
Proof.
  unfold step. destruct (decide (q = p)) as [->|Hne].
  - destruct (contribution ig p) as [[t c]|]; [|reflexivity].
    simpl. now rewrite lookup_insert_eq.
  - destruct (contribution ig q) as [[t c]|]; [|reflexivity].
    simpl. now rewrite lookup_insert_ne.
Qed.

(** The usage record of a path after the loop: the normalised lists of the
    file when the path was gone through and the file counts, the record
    it had before otherwise. *)
Lemma fold_step_file_usage ig paths st p :
  file_usage (fold_left (step ig) paths st) !! p =
  match contribution ig p with
  | Some (t, c) => if bool_decide (p ∈ paths) then Some (Usage t c)
                   else file_usage st !! p
  | None => file_usage st !! p
  end.
Proof.
  clear os_walk. revert st. induction paths as [|q paths IH]; intros st.
  - simpl. destruct (contribution ig p) as [[t c]|]; reflexivity.
  - cbn [fold_left]. rewrite IH, step_file_usage.
    destruct (decide (q = p)) as [->|Hne].
    + destruct (contribution ig p) as [[t c]|] eqn:Hp; [|reflexivity].
      rewrite (bool_decide_eq_true_2 (p ∈ p :: paths)) by (apply elem_of_cons; now left).
      now destruct (bool_decide (p ∈ paths)).
    + destruct (contribution ig p) as [[t c]|]; [|reflexivity].
      destruct (bool_decide_reflect (p ∈ paths)) as [Hin|Hnin].
      * rewrite (bool_decide_eq_true_2 (p ∈ q :: paths)); [reflexivity|].
        apply elem_of_cons. now right.
      * rewrite (bool_decide_eq_false_2 (p ∈ q :: paths)); [reflexivity|].
        intros [Heq|Hin]%elem_of_cons; [congruence|tauto].
Qed.

(** A collection that returns went through all its paths. *)
Lemma collect_Some content_dir exts ig file_paths w r :
  collect content_dir exts ig file_paths = (w, Some r) ->
  let paths := collect_paths content_dir exts file_paths in
  existsb aborts paths = false /\
  w = flat_map warnings_of paths /\
  r = fold_left (step ig) paths empty_collected.
Proof. unfold collect. apply collect_loop_Some. Qed.

(** A collection over files none of which holds a non-mapping value
    returns. *)
Lemma collect_completes content_dir exts ig file_paths :
  let paths := collect_paths content_dir exts file_paths in
  existsb aborts paths = false ->
  collect content_dir exts ig file_paths =
  (flat_map warnings_of paths, Some (fold_left (step ig) paths empty_collected)).
Proof.
  intros paths H. unfold collect.
  pose proof (collect_loop_classify read_lines safe_load ig paths empty_collected) as Hc.
  fold paths. now rewrite H in Hc.
Qed.

End CollectResults.

(** ** Runs on the content tree *)

Example collect_content :
  Fixture.collect "content" [".md"] true None =
  ([ReadError "content/locked.md" "[Errno 13] Permission denied";
    YamlError "content/broken.md" "while parsing a flow sequence"],
   Some {| tags_counter := <["go" := 2]> (<["rust" := 1]> ∅);
           cats_counter := <["backend" := 1]> ∅;
           file_usage := <["content/go.md" := Usage ["go"; "go"; "rust"] ["backend"]]> ∅;
           tag_to_files := <["go" := ["content/go.md"; "content/go.md"]]>
                             (<["rust" := ["content/go.md"]]> ∅);
           cat_to_files := <["backend" := ["content/go.md"]]> ∅ |}).
Proof. vm_compute. reflexivity. Qed.

(** ** Counters, usage records and inverse mappings after a collection *)

Section CollectClaims.

Variable read_lines : string -> string + list string.
Variable safe_load : string -> string + yaml_value.
Variable os_walk : string -> list (string * list string).

#[local] Abbreviation contribution := (contribution read_lines safe_load).
#[local] Abbreviation classify := (classify read_lines safe_load).
#[local] Abbreviation collect := (collect read_lines safe_load os_walk).
#[local] Abbreviation collect_paths := (collect_paths os_walk).
#[local] Abbreviation tags_of := (tags_of read_lines safe_load).
#[local] Abbreviation cats_of := (cats_of read_lines safe_load).

Lemma count_of_empty (n : string) : count_of ∅ n = 0.
Proof. unfold count_of. now rewrite lookup_empty. Qed.

Lemma linked_is_Some (c : gmap string Z) (m : gmap string (list string)) (n : string) :
  linked c m -> (is_Some (c !! n) <-> 0 < count_of c n).
Proof.
  intros H. destruct (linked_lookup c m n H) as [Hc _]. unfold count_of. split.
  - intros [v Hv]. rewrite Hv. simpl. now destruct (Hc v Hv) as (_ & _ & _ & Hpos).
  - destruct (c !! n); [eauto|simpl; lia].
Qed.

(** C1: after a collection that returned, the tag counter gives for every
    name the number of its occurrences, with multiplicity, in the normalised
    tag lists of the files that count (read, with a non-empty front-matter
    mapping, not left out as drafts), taken over the paths the collection
    went through; a name is a key of the counter exactly when it occurs.
    The same holds for the category counter. *)
Theorem C1_counters_count_occurrences
    (content_dir : string) (exts : list string) (ignore_drafts : bool)
    (file_paths : option (list string)) (w : list warning) (r : collected) :
  collect content_dir exts ignore_drafts file_paths = (w, Some r) ->
  forall name : string,
    let paths := collect_paths content_dir exts file_paths in
    count_of (tags_counter r) name
      = occurrences name (flat_map (tags_of ignore_drafts) paths) /\
    count_of (cats_counter r) name
      = occurrences name (flat_map (cats_of ignore_drafts) paths) /\
    (is_Some (tags_counter r !! name)
       <-> In name (flat_map (tags_of ignore_drafts) paths)) /\
    (is_Some (cats_counter r !! name)
       <-> In name (flat_map (cats_of ignore_drafts) paths)).
Proof.
  intros H name paths. apply collect_Some in H as (_ & _ & ->). fold paths.
  pose proof (fold_step_linked read_lines safe_load ignore_drafts paths
                empty_collected (conj linked_empty linked_empty)) as [Lt Lc].
  assert (Ht : count_of (tags_counter (fold_left (step read_lines safe_load ignore_drafts)
                                         paths empty_collected)) name
               = occurrences name (flat_map (tags_of ignore_drafts) paths)).
  { rewrite fold_step_tags_counter, count_of_counter_update. simpl.
    rewrite count_of_empty. lia. }
  assert (Hc : count_of (cats_counter (fold_left (step read_lines safe_load ignore_drafts)
                                         paths empty_collected)) name
               = occurrences name (flat_map (cats_of ignore_drafts) paths)).
  { rewrite fold_step_cats_counter, count_of_counter_update. simpl.
    rewrite count_of_empty. lia. }
  split; [exact Ht|]. split; [exact Hc|]. split.
  - rewrite (linked_is_Some _ _ name Lt), Ht. apply occurrences_pos_In.
  - rewrite (linked_is_Some _ _ name Lc), Hc. apply occurrences_pos_In.
Qed.

(** C2, as it holds: after a collection that returned, the usage record of
    a path is the pair of the normalised tag list and category list of its
    file, duplicates kept, and there is a record exactly for the paths gone
    through whose file counts; every occurrence in these lists is one
    increment of the global counter. *)
Theorem C2_usage_record_keeps_normalized_lists
    (content_dir : string) (exts : list string) (ignore_drafts : bool)
    (file_paths : option (list string)) (w : list warning) (r : collected) :
  collect content_dir exts ignore_drafts file_paths = (w, Some r) ->
  let paths := collect_paths content_dir exts file_paths in
  (forall path : string,
     file_usage r !! path =
       if bool_decide (path ∈ paths)
       then (fun tc : list string * list string => Usage tc.1 tc.2)
              <$> contribution ignore_drafts path
       else None) /\
  (forall name : string,
     count_of (tags_counter r) name
       = occurrences name (flat_map (tags_of ignore_drafts) paths) /\
     count_of (cats_counter r) name
       = occurrences name (flat_map (cats_of ignore_drafts) paths)).
Proof.
  intros H paths. apply collect_Some in H as (_ & _ & ->). fold paths. split.
  - intros path. rewrite fold_step_file_usage. simpl. rewrite lookup_empty.
    destruct (contribution ignore_drafts path) as [[t c]|];
      now destruct (bool_decide (path ∈ paths)).
  - intros name.
    rewrite fold_step_tags_counter, fold_step_cats_counter, !count_of_counter_update.
    simpl. rewrite !count_of_empty. lia.
Qed.

(** C8: after a collection that returned, a name is a key of the tag
    counter exactly when it is a key of the tag inverse mapping, its count
    is the length of its list, the count is positive and the list is not
    empty; the same for categories. *)
Theorem C8_counter_matches_inverse_mapping
    (content_dir : string) (exts : list string) (ignore_drafts : bool)
    (file_paths : option (list string)) (w : list warning) (r : collected) :
  collect content_dir exts ignore_drafts file_paths = (w, Some r) ->
  forall name : string,
    (tags_counter r !! name
       = (fun files : list string => Z.of_nat (length files)) <$> (tag_to_files r !! name) /\
     tag_to_files r !! name <> Some [] /\
     match tags_counter r !! name with Some v => 0 < v | None => True end) /\
    (cats_counter r !! name
       = (fun files : list string => Z.of_nat (length files)) <$> (cat_to_files r !! name) /\
     cat_to_files r !! name <> Some [] /\
     match cats_counter r !! name with Some v => 0 < v | None => True end).
Proof.
  intros H name. apply collect_Some in H as (_ & _ & ->).
  pose proof (fold_step_linked read_lines safe_load ignore_drafts
                (collect_paths content_dir exts file_paths)
                empty_collected (conj linked_empty linked_empty)) as [Lt Lc].
  split.
  - destruct (Lt name) as [H1 H2]. split; [exact H1|]. split; [exact H2|].
    destruct (tags_counter _ !! name) as [v|] eqn:Hv; [|exact I].
    now destruct (proj1 (linked_lookup _ _ name Lt) v Hv) as (_ & _ & _ & Hpos).
  - destruct (Lc name) as [H1 H2]. split; [exact H1|]. split; [exact H2|].
    destruct (cats_counter _ !! name) as [v|] eqn:Hv; [|exact I].
    now destruct (proj1 (linked_lookup _ _ name Lc) v Hv) as (_ & _ & _ & Hpos).
Qed.

End CollectClaims.

(** ** Files that are skipped, files that stop the run *)

Section Skipping.

Variable read_lines : string -> string + list string.
Variable safe_load : string -> string + yaml_value.
Variable os_walk : string -> list (string * list string).

#[local] Abbreviation classify := (classify read_lines safe_load).
#[local] Abbreviation contribution := (contribution read_lines safe_load).
#[local] Abbreviation read_front_matter := (read_front_matter read_lines safe_load).
#[local] Abbreviation collect_file := (collect_file read_lines safe_load).
#[local] Abbreviation collect_loop := (collect_loop read_lines safe_load).
#[local] Abbreviation collect := (collect read_lines safe_load os_walk).

(** A file that only leaves the state as it is can be taken out of the
    paths. *)
Lemma collect_loop_skip (ig : bool) (pre rest : list string) (path : string)
    (st : collected) :
  (forall st', collect_file ig st' path = ([], Some st')) ->
  collect_loop ig (pre ++ path :: rest) st = collect_loop ig (pre ++ rest) st.
Proof.
  intros Hskip. revert st. induction pre as [|q pre IH]; intros st.
  - cbn [app collect_loop]. rewrite Hskip. cbn [run_bind].
    now destruct (collect_loop ig rest st).
  - cbn [app collect_loop].
    destruct (collect_file ig st q) as [w [st'|]]; [|reflexivity].
    cbn [run_bind]. now rewrite IH.
Qed.

Lemma classify_no_markers (path : string) (lines : list string) :
  read_lines path = inr lines -> is_front_matter_yaml lines = (-1, -1) ->
  classify path = NoFrontMatter.
Proof. intros Hr Hm. unfold classify. now rewrite Hr, Hm. Qed.

Lemma classify_empty_mapping (path : string) (lines : list string) (e : Z)
    (v : yaml_value) :
  read_lines path = inr lines -> is_front_matter_yaml lines = (0, e) ->
  safe_load (Str.join "" (slice lines 1 e)) = inr v -> truthy v = false ->
  classify path = EmptyMapping.
Proof.
  intros Hr Hm Hl Hv. unfold classify. rewrite Hr, Hm.
  cbn [Z.eqb Z.add]. change (0 + 1) with 1. now rewrite Hl, Hv.
Qed.

(** A read failure: one warning, the state is left as it is. *)
Lemma read_failure_skipped (ig : bool) (st : collected) (path msg : string) :
  read_lines path = inl msg ->
  collect_file ig st path = ([ReadError path msg], Some st).
Proof.
  intros Hr. rewrite collect_file_classify.
  unfold warnings_of, aborts, step, contribution, classify.
  now rewrite Hr.
Qed.

(** A parser failure: one warning, the state is left as it is. *)
Lemma parse_failure_skipped (ig : bool) (st : collected) (path msg : string)
    (lines : list string) (e : Z) :
  read_lines path = inr lines -> is_front_matter_yaml lines = (0, e) ->
  safe_load (Str.join "" (slice lines 1 e)) = inl msg ->
  collect_file ig st path = ([YamlError path msg], Some st).
Proof.
  intros Hr Hm Hl. rewrite collect_file_classify.
  unfold warnings_of, aborts, step, contribution, classify.
  rewrite Hr, Hm. cbn [Z.eqb]. change (0 + 1) with 1. now rewrite Hl.
Qed.

(** A front matter whose value is true and is not a mapping: the loop
    raises, whatever the paths before and after. *)
Lemma non_mapping_aborts (ig : bool) (paths : list string) (st : collected)
    (path : string) (v : yaml_value) :
  In path paths -> classify path = NotAMapping v ->
  (collect_loop ig paths st).2 = None.
Proof.
  intros Hin Hc.
  pose proof (collect_loop_classify read_lines safe_load ig paths st) as H.
  assert (Hex : existsb (aborts read_lines safe_load) paths = true).
  { apply existsb_exists. exists path. split; [exact Hin|].
    unfold aborts. now rewrite Hc. }
  now rewrite Hex in H.
Qed.

(** C9: a file with the two marker lines whose block has a false value
    (the empty document, a blank block, an empty mapping) comes out of
    [read_front_matter] as the empty mapping with no warning, as a file
    without front matter does; the loop leaves the state as it is, taking
    the file out of the paths changes nothing, and after a collection that
    returned the path has no usage record, so the per-file listing, which
    goes through the records, does not show it. *)
Theorem C9_empty_front_matter_skipped
    (path : string) (lines : list string) (e : Z) (v : yaml_value) :
  read_lines path = inr lines ->
  is_front_matter_yaml lines = (0, e) ->
  safe_load (Str.join "" (slice lines 1 e)) = inr v ->
  truthy v = false ->
  read_front_matter path = ([], Some (Some (YMap []))) /\
  (forall path' lines',
     read_lines path' = inr lines' -> is_front_matter_yaml lines' = (-1, -1) ->
     read_front_matter path' = read_front_matter path) /\
  (forall ig st, collect_file ig st path = ([], Some st)) /\
  (forall ig pre rest st,
     collect_loop ig (pre ++ path :: rest) st = collect_loop ig (pre ++ rest) st) /\
  (forall content_dir exts ig file_paths w r,
     collect content_dir exts ig file_paths = (w, Some r) ->
     file_usage r !! path = None /\
     ~ In path (map fst (map_to_list (file_usage r)))).
Proof.
  intros Hr Hm Hl Hv.
  pose proof (classify_empty_mapping path lines e v Hr Hm Hl Hv) as Hc.
  assert (Hfm : read_front_matter path = ([], Some (Some (YMap [])))).
  { rewrite read_front_matter_classify. now rewrite Hc. }
  assert (Hskip : forall ig st, collect_file ig st path = ([], Some st)).
  { intros ig st. rewrite collect_file_classify.
    unfold warnings_of, aborts, step, contribution. now rewrite Hc. }
  split; [exact Hfm|]. split.
  { intros path' lines' Hr' Hm'. rewrite Hfm, read_front_matter_classify.
    now rewrite (classify_no_markers path' lines' Hr' Hm'). }
  split; [exact Hskip|]. split.
  { intros ig pre rest st. apply collect_loop_skip. apply Hskip. }
  intros content_dir exts ig file_paths w r H.
  apply collect_Some in H as (_ & _ & ->).
  assert (Hnone : file_usage
            (fold_left (step read_lines safe_load ig)
               (collect_paths os_walk content_dir exts file_paths) empty_collected)
            !! path = None).
  { rewrite fold_step_file_usage. unfold contribution. rewrite Hc.
    apply lookup_empty. }
  split; [exact Hnone|].
  intros Hin. apply in_map_iff in Hin as [[p u] [Hp Hin]]. simpl in Hp. subst p.
  apply list_elem_of_In, elem_of_map_to_list in Hin. congruence.
Qed.

End Skipping.

(** ** The scenarios of the specification *)

(** The scenario of the specification: one file with [tags: [Go, go, Rust]]
    and [categories: backend]. *)
Lemma collect_go_result :
  Fixture.collect "content" [".md"] false (Some ["content/go.md"]) = ([], Some go_result).
Proof. vm_compute. reflexivity. Qed.

(** C1 on the scenario: the tag counter is {go: 2, rust: 1}, the category
    counter {backend: 1}. *)
Lemma C1_witness :
  (count_of (tags_counter go_result) "go" = 2 /\
   count_of (tags_counter go_result) "rust" = 1 /\
   count_of (cats_counter go_result) "backend" = 1) /\
  map_to_list (tags_counter go_result) = [("go", 2); ("rust", 1)] /\
  map_to_list (cats_counter go_result) = [("backend", 1)].
Proof.
  pose proof (C1_counters_count_occurrences
                Fixture.read_lines Fixture.safe_load Fixture.os_walk
                "content" [".md"] false (Some ["content/go.md"]) [] go_result
                collect_go_result) as H.
  split; [|split; vm_compute; reflexivity].
  split; [exact (proj1 (H "go"))|].
  split; [exact (proj1 (H "rust"))|exact (proj1 (proj2 (H "backend")))].
Defined.

(** The usage record of the scenario file lists [go] twice. *)
Lemma C2_counterexample :
  exists r : collected,
    Fixture.collect "content" [".md"] false (Some ["content/go.md"]) = ([], Some r) /\
    file_usage r !! "content/go.md" = Some (Usage ["go"; "go"; "rust"] ["backend"]) /\
    occurrences "go" ["go"; "go"; "rust"] = 2 /\
    ~ usage_without_duplicates r.
Proof.
  exists go_result. split; [exact collect_go_result|].
  split; [reflexivity|]. split; [reflexivity|].
  intros H.
  destruct (H "content/go.md" (Usage ["go"; "go"; "rust"] ["backend"]) "go" eq_refl)
    as [Hle _].
  vm_compute in Hle. now apply Hle.
Qed.

(** C2 on the scenario: the record is the normalised lists as they are. *)
Lemma C2_witness :
  file_usage go_result !! "content/go.md" = Some (Usage ["go"; "go"; "rust"] ["backend"]) /\
  file_usage go_result !! "content/plain.md" = None /\
  count_of (tags_counter go_result) "go" = 2.
Proof.
  pose proof (C2_usage_record_keeps_normalized_lists
                Fixture.read_lines Fixture.safe_load Fixture.os_walk
                "content" [".md"] false (Some ["content/go.md"]) [] go_result
                collect_go_result) as [Hu Hc].
  split; [exact (Hu "content/go.md")|].
  split; [exact (Hu "content/plain.md")|exact (proj1 (Hc "go"))].
Defined.

(** C8 on the scenario: [go] counts 2 and its list has two entries. *)
Lemma C8_witness :
  tags_counter go_result !! "go" = Some 2 /\
  tag_to_files go_result !! "go" = Some ["content/go.md"; "content/go.md"] /\
  tags_counter go_result !! "rust"
    = (fun files : list string => Z.of_nat (length files))
        <$> (tag_to_files go_result !! "rust") /\
  cats_counter go_result !! "backend"
    = (fun files : list string => Z.of_nat (length files))
        <$> (cat_to_files go_result !! "backend").
Proof.
  pose proof (C8_counter_matches_inverse_mapping
                Fixture.read_lines Fixture.safe_load Fixture.os_walk
                "content" [".md"] false (Some ["content/go.md"]) [] go_result
                collect_go_result) as H.
  split; [reflexivity|]. split; [reflexivity|].
  split; [exact (proj1 (proj1 (H "rust")))|exact (proj1 (proj2 (H "backend")))].
Defined.

(** C9 on [content/blank.md], whose block is a blank line, beside
    [content/plain.md], which has no front matter. *)
Lemma C9_witness :
  read_front_matter Fixture.read_lines Fixture.safe_load "content/blank.md"
    = ([], Some (Some (YMap []))) /\
  read_front_matter Fixture.read_lines Fixture.safe_load "content/plain.md"
    = read_front_matter Fixture.read_lines Fixture.safe_load "content/blank.md" /\
  collect_file Fixture.read_lines Fixture.safe_load false go_result "content/blank.md"
    = ([], Some go_result).
Proof.
  pose proof (C9_empty_front_matter_skipped
                Fixture.read_lines Fixture.safe_load Fixture.os_walk
                "content/blank.md"
                [Fixture.ln "---"; Fixture.ln "  "; Fixture.ln "---"; Fixture.ln "Body."]
                2 YNull eq_refl eq_refl eq_refl eq_refl) as (H1 & H2 & H3 & _).
  split; [exact H1|].
  split; [exact (H2 "content/plain.md" [Fixture.ln "No header here."] eq_refl eq_refl)|].
  exact (H3 false go_result).
Defined.

(** C6 on a front matter that is a plain scalar: [bad/scalar.md] holds the
    block [hello], which [yaml.safe_load] turns into a string; the loop
    raises on it and the run prints nothing.  Beside it, the read failure
    and the parser failure of [content] are skipped with their warnings. *)
Theorem C6_non_mapping_front_matter_aborts :
  Fixture.read_lines "bad/scalar.md"
    = inr [Fixture.ln "---"; Fixture.ln "hello"; Fixture.ln "---"; Fixture.ln "Body."] /\
  Fixture.safe_load (Fixture.ln "hello") = inr (YStr "hello") /\
  read_front_matter Fixture.read_lines Fixture.safe_load "bad/scalar.md"
    = ([], Some (Some (YStr "hello"))) /\
  Fixture.collect "bad" [".md"] false None = ([], None) /\
  Fixture.collect "bad" [".md"] true None = ([], None) /\
  Fixture.collect "bad" [".md"] false (Some ["bad/scalar.md"]) = ([], None) /\
  Fixture.main
    {| a_dir := "bad"; a_file := None; a_ext := ".md"; a_ignore_drafts := false;
       a_per_file := false; a_summary := true; a_singletons := true;
       a_by_tag := false; a_by_cat := false; a_format := "text"; a_sort := "count";
       a_min_count := 0; a_top := 0 |} = ([], None) /\
  Fixture.collect "content" [".md"] false None =
    ([ReadError "content/locked.md" "[Errno 13] Permission denied";
      YamlError "content/broken.md" "while parsing a flow sequence"],
     Some {| tags_counter := <["go" := 2]> (<["rust" := 1]> (<["wip" := 1]> ∅));
             cats_counter := <["backend" := 1]> ∅;
             file_usage :=
               <["content/go.md" := Usage ["go"; "go"; "rust"] ["backend"]]>
                 (<["content/draft.md" := Usage ["wip"] []]> ∅);
             tag_to_files := <["go" := ["content/go.md"; "content/go.md"]]>
                               (<["rust" := ["content/go.md"]]>
                                  (<["wip" := ["content/draft.md"]]> ∅));
             cat_to_files := <["backend" := ["content/go.md"]]> ∅ |}).
Proof. repeat split; vm_compute; reflexivity. Qed.

(** ** The singleton listing *)

Lemma length_one {X : Type} (l : list X) :
  Z.of_nat (length l) = 1 <-> exists x, l = [x].
Proof.
  split.
  - destruct l as [|x [|y l]]; simpl; try lia. intros _. now exists x.
  - intros [x ->]. reflexivity.
Qed.

Lemma In_singleton_rows (m : gmap string (list string)) (name : string) (count : Z) :
  In (name, count) (singleton_rows m) <->
  count = 1 /\ exists file, m !! name = Some [file].
Proof.
  unfold singleton_rows.
  assert (Hp := sort_by_Permutation (fun kv : string * Z => kv.1) String.leb
                  (map (fun tf : string * list string => (tf.1, 1))
                     (List.filter
                        (fun tf : string * list string => Z.of_nat (length tf.2) =? 1)
                        (map_to_list m)))).
  split.
  - intros Hin. apply (Permutation_in _ Hp) in Hin.
    apply in_map_iff in Hin as [[t files] [Heq Hin]]. simpl in Heq.
    injection Heq as -> <-. apply filter_In in Hin as [Hin Hlen]. simpl in Hlen.
    apply Z.eqb_eq, length_one in Hlen as [file ->].
    apply list_elem_of_In, elem_of_map_to_list in Hin. eauto.
  - intros [-> [file Hm]]. apply (Permutation_in _ (Permutation_sym Hp)).
    apply in_map_iff. exists (name, [file]). split; [reflexivity|].
    apply filter_In. split; [|reflexivity].
    now apply list_elem_of_In, elem_of_map_to_list.
Qed.

Lemma singleton_rows_ordered (m : gmap string (list string)) :
  StronglySorted alpha_before (singleton_rows m).
Proof.
  apply sorted_alpha_ordered.
  rewrite map_map. simpl.
  apply (NoDup_filter_fst
           (fun tf : string * list string => Z.of_nat (length tf.2) =? 1)).
  apply NoDup_fst_map_to_list.
Qed.

Lemma linked_singleton (c : gmap string Z) (m : gmap string (list string)) (n : string) :
  linked c m -> (c !! n = Some 1 <-> exists file, m !! n = Some [file]).
Proof.
  intros H. destruct (H n) as [Hc _]. rewrite Hc. split.
  - destruct (m !! n) as [files|]; [|discriminate]. simpl. intros [= Hlen].
    apply length_one in Hlen as [file ->]. eauto.
  - intros [file ->]. reflexivity.
Qed.

Section Singletons.

Variable read_lines : string -> string + list string.
Variable safe_load : string -> string + yaml_value.
Variable os_walk : string -> list (string * list string).
Variable json_dumps : json -> string.

#[local] Abbreviation collect := (collect read_lines safe_load os_walk).
#[local] Abbreviation collect_paths := (collect_paths os_walk).
#[local] Abbreviation tags_of := (tags_of read_lines safe_load).
#[local] Abbreviation cats_of := (cats_of read_lines safe_load).

(** C4, as it holds: after a collection that returned, a tag is in the
    singleton listing, with the count 1, exactly when its entry of the
    inverse mapping holds one path, which is when its count is 1, that is
    when it occurs once in the normalised tag lists of the files that
    count; the listing is in ascending order of the names, and the sort
    mode, the threshold and the limit do not enter the section.  The same
    holds for the categories. *)
Theorem C4_singletons_have_one_path
    (content_dir : string) (exts : list string) (ignore_drafts : bool)
    (file_paths : option (list string)) (w : list warning) (r : collected) :
  collect content_dir exts ignore_drafts file_paths = (w, Some r) ->
  let paths := collect_paths content_dir exts file_paths in
  (forall name count,
     In (name, count) (singleton_rows (tag_to_files r)) <->
     count = 1 /\ exists file, tag_to_files r !! name = Some [file]) /\
  (forall name count,
     In (name, count) (singleton_rows (cat_to_files r)) <->
     count = 1 /\ exists file, cat_to_files r !! name = Some [file]) /\
  (forall name,
     In (name, 1) (singleton_rows (tag_to_files r)) <-> tags_counter r !! name = Some 1) /\
  (forall name,
     In (name, 1) (singleton_rows (cat_to_files r)) <-> cats_counter r !! name = Some 1) /\
  (forall name,
     In (name, 1) (singleton_rows (tag_to_files r)) <->
     occurrences name (flat_map (tags_of ignore_drafts) paths) = 1) /\
  (forall name,
     In (name, 1) (singleton_rows (cat_to_files r)) <->
     occurrences name (flat_map (cats_of ignore_drafts) paths) = 1) /\
  StronglySorted alpha_before (singleton_rows (tag_to_files r)) /\
  StronglySorted alpha_before (singleton_rows (cat_to_files r)) /\
  (forall a sort min_count top,
     singletons_section json_dumps (with_filters a sort min_count top) r
     = singletons_section json_dumps a r).
Proof.
  intros H paths. apply collect_Some in H as (_ & _ & Hr). fold paths in Hr.
  pose proof (fold_step_linked read_lines safe_load ignore_drafts paths
                empty_collected (conj linked_empty linked_empty)) as [Lt Lc].
  rewrite <- Hr in Lt, Lc.
  assert (Ht1 : forall name,
            In (name, 1) (singleton_rows (tag_to_files r)) <-> tags_counter r !! name = Some 1).
  { intros name. rewrite In_singleton_rows, (linked_singleton _ _ name Lt). tauto. }
  assert (Hc1 : forall name,
            In (name, 1) (singleton_rows (cat_to_files r)) <-> cats_counter r !! name = Some 1).
  { intros name. rewrite In_singleton_rows, (linked_singleton _ _ name Lc). tauto. }
  assert (Hcount : forall (c : gmap string Z) m name,
            linked c m -> (c !! name = Some 1 <-> count_of c name = 1)).
  { intros c m name L. unfold count_of. split; [now intros ->|].
    destruct (c !! name); simpl; [now intros ->|discriminate]. }
  split; [intros; apply In_singleton_rows|].
  split; [intros; apply In_singleton_rows|].
  split; [exact Ht1|]. split; [exact Hc1|].
  split.
  { intros name. rewrite Ht1, (Hcount _ _ name Lt), Hr.
    rewrite fold_step_tags_counter, count_of_counter_update. simpl.
    rewrite count_of_empty. now rewrite Z.add_0_l. }
  split.
  { intros name. rewrite Hc1, (Hcount _ _ name Lc), Hr.
    rewrite fold_step_cats_counter, count_of_counter_update. simpl.
    rewrite count_of_empty. now rewrite Z.add_0_l. }
  split; [apply singleton_rows_ordered|].
  split; [apply singleton_rows_ordered|].
  reflexivity.
Qed.

End Singletons.

(** The scenario of the specification with two files. *)
Lemma collect_site_result :
  Fixture.collect "site" [".md"] false None = ([], Some site_result).
Proof. vm_compute. reflexivity. Qed.

(** C4 on the two files: [y] is the one singleton tag. *)
Lemma C4_witness :
  singleton_rows (tag_to_files site_result) = [("y", 1)] /\
  (In ("y", 1) (singleton_rows (tag_to_files site_result))
     <-> tags_counter site_result !! "y" = Some 1) /\
  (In ("x", 1) (singleton_rows (tag_to_files site_result))
     <-> tags_counter site_result !! "x" = Some 1).
Proof.
  pose proof (C4_singletons_have_one_path
                Fixture.read_lines Fixture.safe_load Fixture.os_walk Fixture.json_dumps
                "site" [".md"] false None [] site_result collect_site_result)
    as (_ & _ & H & _).
  split; [vm_compute; reflexivity|].
  split; [exact (H "y")|exact (H "x")].
Defined.

(** A tag that one file lists twice: one content item uses it, its entry in the
    inverse mapping has two paths, and the singleton listing is empty. *)
Lemma C4_counterexample :
  Fixture.collect "dups" [".md"] false None = ([], Some dups_result) /\
  files_using_tag dups_result "go" = ["dups/dup.md"] /\
  tag_to_files dups_result !! "go" = Some ["dups/dup.md"; "dups/dup.md"] /\
  singleton_rows (tag_to_files dups_result) = [] /\
  ~ (forall name,
       In (name, 1) (singleton_rows (tag_to_files dups_result)) <->
       length (files_using_tag dups_result name) = 1%nat).
Proof.
  split; [vm_compute; reflexivity|].
  split; [vm_compute; reflexivity|].
  split; [reflexivity|].
  split; [vm_compute; reflexivity|].
  intros H. destruct (H "go") as [_ Hback].
  assert (Hin : In ("go", 1) (singleton_rows (tag_to_files dups_result)))
    by (apply Hback; vm_compute; reflexivity).
  vm_compute in Hin. exact Hin.
Qed.

(** ** The mapping views *)

Lemma fold_left_blocks {X : Type} (F : list string -> X -> list string)
    (g : X -> list string) (l : list X) (out : list string) :
  (forall out x, F out x = out ++ g x) ->
  fold_left F l out = out ++ flat_map g l.
Proof.
  intros HF. revert out. induction l as [|x l IH]; intros out; simpl.
  - now rewrite app_nil_r.
  - now rewrite IH, HF, <- app_assoc.
Qed.

Lemma fold_left_lines {X : Type} (h : X -> string) (l : list X) (out : list string) :
  fold_left (fun out x => out ++ [h x]) l out = out ++ map h l.
Proof.
  revert out. induction l as [|x l IH]; intros out; simpl.
  - now rewrite app_nil_r.
  - now rewrite IH, <- app_assoc.
Qed.

Lemma render_mapping_text_view (header : string) (keys : list string)
    (mapping : gmap string (list string)) :
  render_mapping_text header keys mapping = view_text header keys mapping.
Proof.
  unfold render_mapping_text, view_text. destruct keys as [|k keys]; [reflexivity|].
  rewrite (fold_left_blocks _ (text_block mapping)).
  - now rewrite <- app_assoc.
  - intros out x. rewrite fold_left_lines. unfold text_block.
    now rewrite <- !app_assoc.
Qed.

Lemma render_mapping_markdown_view (header : string) (keys : list string)
    (mapping : gmap string (list string)) :
  render_mapping_markdown header keys mapping = view_markdown header keys mapping.
Proof.
  unfold render_mapping_markdown, view_markdown. destruct keys as [|k keys]; [reflexivity|].
  rewrite (fold_left_blocks _ (markdown_block mapping)); [reflexivity|].
  intros out x. rewrite fold_left_lines. unfold markdown_block.
  now rewrite <- !app_assoc.
Qed.

Lemma render_mapping_csv_view (keys : list string) (mapping : gmap string (list string)) :
  render_mapping_csv keys mapping = view_csv keys mapping.
Proof.
  unfold render_mapping_csv, view_csv.
  rewrite (fold_left_blocks _ (csv_block mapping)); [reflexivity|].
  intros out x. unfold csv_block.
  destruct (sorted_strings (files_of mapping x)) as [|f files]; [reflexivity|].
  now rewrite fold_left_lines.
Qed.

Lemma dict_set_fresh {V : Type} (d : list (string * V)) (k : string) (v : V) :
  k ∉ map fst d -> dict_set d k v = d ++ [(k, v)].
Proof.
  induction d as [|[k' v'] d IH]; intros Hk; simpl; [reflexivity|].
  simpl in Hk. apply not_elem_of_cons in Hk as [Hne Hk].
  destruct (String.eqb_spec k' k) as [->|_]; [congruence|].
  now rewrite IH.
Qed.

Lemma dict_comprehension_NoDup {V : Type} (f : string -> V) (keys : list string) :
  NoDup keys -> dict_comprehension f keys = map (fun k => (k, f k)) keys.
Proof.
  unfold dict_comprehension.
  enough (H : forall d, NoDup (map fst d ++ keys) ->
                        fold_left (fun d k => dict_set d k (f k)) keys d
                        = d ++ map (fun k => (k, f k)) keys)
    by (intros Hnd; exact (H [] Hnd)).
  induction keys as [|k keys IH]; intros d Hnd; simpl.
  - now rewrite app_nil_r.
  - assert (Hk : k ∉ map fst d).
    { apply NoDup_app in Hnd as (_ & Hdis & _). intros Hin.
      apply (Hdis k Hin). apply elem_of_cons. now left. }
    rewrite (dict_set_fresh d k (f k) Hk), IH.
    + now rewrite <- app_assoc.
    + rewrite map_app. simpl. now rewrite <- app_assoc.
Qed.

Lemma NoDup_ordered_keys (a : args) (counter : gmap string Z) :
  NoDup (ordered_keys_from a counter).
Proof.
  unfold ordered_keys_from. rewrite sort_and_filter_eq.
  set (ordered := if String.eqb (a_sort a) "alpha"
                  then sorted_alpha (retained counter (a_min_count a))
                  else sorted_count (retained counter (a_min_count a))).
  assert (Hnd : NoDup (map fst ordered)).
  { eapply NoDup_names_Permutation; [|apply (NoDup_retained counter (a_min_count a))].
    symmetry. unfold ordered.
    destruct (String.eqb (a_sort a) "alpha"); apply sort_by_Permutation. }
  cbn zeta. destruct (0 <? a_top a); [|exact Hnd].
  rewrite <- firstn_map. exact (sublist_NoDup _ _ Hnd (sublist_take _ _)).
Qed.

Lemma In_firstn {X : Type} (n : nat) (l : list X) (x : X) : In x (firstn n l) -> In x l.
Proof.
  revert l. induction n as [|n IH]; intros [|y l]; simpl; try tauto.
  intros [->|H]; [now left|right; now apply IH].
Qed.

(** Every row of the engine is an entry of the counter that reaches the
    threshold. *)
Lemma sort_and_filter_In (counter : gmap string Z) (mode : string) (min_count top : Z)
    (k : string) (v : Z) :
  In (k, v) (sort_and_filter counter mode min_count top) ->
  counter !! k = Some v /\ min_count <= v.
Proof.
  rewrite sort_and_filter_eq. cbn zeta. intros Hin.
  assert (Hin' : In (k, v) (if String.eqb mode "alpha"
                            then sorted_alpha (retained counter min_count)
                            else sorted_count (retained counter min_count))).
  { destruct (0 <? top); [now apply In_firstn in Hin|exact Hin]. }
  apply In_retained.
  destruct (String.eqb mode "alpha");
    exact (Permutation_in _ (sort_by_Permutation _ _ _) Hin').
Qed.

Section MappingViews.

Variable read_lines : string -> string + list string.
Variable safe_load : string -> string + yaml_value.
Variable os_walk : string -> list (string * list string).
Variable json_dumps : json -> string.
Variable stdout_isatty : bool.

#[local] Abbreviation mapping_view := (mapping_view json_dumps).

Lemma mapping_section_view (a : args) (header comment header_key : string)
    (keys : list string) (mapping : gmap string (list string)) :
  NoDup keys ->
  mapping_section json_dumps a header comment header_key keys mapping
  = mapping_view (a_format a) header comment header_key keys mapping.
Proof.
  intros Hnd. unfold mapping_section, mapping_view, print, print_noend,
    render_mapping_json, mapping_payload, view_json, json_member.
  rewrite render_mapping_markdown_view, render_mapping_csv_view,
    render_mapping_text_view, (dict_comprehension_NoDup _ keys Hnd).
  reflexivity.
Qed.

(** C5: the files-by-tag section is, in each format, the view written key
    by key over the names that the filter/sort engine gives for the tag
    counter with the sort mode, the threshold and the limit of the command
    line, in that order: each of these names is rendered once, and each is
    an entry of the counter that reaches the threshold.  The files-by-
    category section is the same over the category counter.  The keys of
    the inverse mapping do not enter: the mapping is only looked up.  The
    report of the driver holds these views after the singleton listing,
    the view of the tags when [--by-tag] is given and then the view of the
    categories when [--by-cat] is given, and nothing in their place when
    the option is not given; [main] prints that report for the result of
    the collection. *)
Theorem C5_mapping_views_follow_engine (a : args) (r : collected) :
  let tag_names :=
    map fst (sort_and_filter (tags_counter r) (a_sort a) (a_min_count a) (a_top a)) in
  let cat_names :=
    map fst (sort_and_filter (cats_counter r) (a_sort a) (a_min_count a) (a_top a)) in
  by_tag_section json_dumps a r
    = mapping_view (a_format a) "Files by Tag" "# files_by_tag" "files_by_tag"
        tag_names (tag_to_files r) /\
  by_cat_section json_dumps a r
    = mapping_view (a_format a) "Files by Category" "# files_by_category"
        "files_by_category" cat_names (cat_to_files r) /\
  NoDup tag_names /\
  NoDup cat_names /\
  Forall (fun k => exists v, tags_counter r !! k = Some v /\ a_min_count a <= v) tag_names /\
  Forall (fun k => exists v, cats_counter r !! k = Some v /\ a_min_count a <= v) cat_names /\
  report json_dumps stdout_isatty a r
    = (if a_per_file a then print_per_file (file_usage r) else [])
      ++ (if a_summary a then summary_section json_dumps a r else [])
      ++ (if a_singletons a then singletons_section json_dumps a r else [])
      ++ (if a_by_tag a
          then mapping_view (a_format a) "Files by Tag" "# files_by_tag" "files_by_tag"
                 tag_names (tag_to_files r)
          else [])
      ++ (if a_by_cat a
          then mapping_view (a_format a) "Files by Category" "# files_by_category"
                 "files_by_category" cat_names (cat_to_files r)
          else [])
      ++ (if String.eqb (a_format a) "text" && stdout_isatty
          then [Text (footer +:+ Str.nl)] else []) /\
  main read_lines safe_load os_walk json_dumps stdout_isatty a
    = match collect read_lines safe_load os_walk (a_dir a) (exts_of (a_ext a))
              (a_ignore_drafts a) (file_paths_of (a_file a)) with
      | (w, Some collected_result) =>
          (w, Some (report json_dumps stdout_isatty a collected_result))
      | (w, None) => (w, None)
      end.
Proof.
  intros tag_names cat_names.
  assert (Ht : NoDup tag_names) by apply (NoDup_ordered_keys a (tags_counter r)).
  assert (Hc : NoDup cat_names) by apply (NoDup_ordered_keys a (cats_counter r)).
  assert (Htag := mapping_section_view a "Files by Tag" "# files_by_tag" "files_by_tag"
                    tag_names (tag_to_files r) Ht).
  assert (Hcat := mapping_section_view a "Files by Category" "# files_by_category"
                    "files_by_category" cat_names (cat_to_files r) Hc).
  split; [exact Htag|]. split; [exact Hcat|].
  split; [exact Ht|]. split; [exact Hc|].
  split.
  { apply List.Forall_forall; intros k Hin;
      apply in_map_iff in Hin as [[k' v] [Hk Hin]]; simpl in Hk; subst k';
      exists v; eapply sort_and_filter_In; exact Hin. }
  split.
  { apply List.Forall_forall; intros k Hin;
      apply in_map_iff in Hin as [[k' v] [Hk Hin]]; simpl in Hk; subst k';
      exists v; eapply sort_and_filter_In; exact Hin. }
  split.
  { unfold report. rewrite <- Htag, <- Hcat. reflexivity. }
  unfold main.
  destruct (collect read_lines safe_load os_walk (a_dir a) (exts_of (a_ext a))
              (a_ignore_drafts a) (file_paths_of (a_file a))) as [w [res|]];
    cbn [run_bind run_ret]; [|reflexivity].
  now rewrite app_nil_r.
Qed.

End MappingViews.

(** With the threshold 2 the files-by-tag view of [site] shows the tag [x]
    alone, while the inverse mapping has the keys [x] and [y]. *)
Example by_tag_follows_the_counter :
  let a := with_filters Fixture.default_args "count" 2 0 in
  ordered_keys_from a (tags_counter site_result) = ["x"] /\
  tag_to_files site_result !! "y" = Some ["site/xy.md"] /\
  render_mapping_csv (ordered_keys_from a (tags_counter site_result))
    (tag_to_files site_result)
  = Str.join Str.nl ["name,file";
                     Str.dquote +:+ "x" +:+ Str.dquote +:+ "," +:+ Str.dquote
                       +:+ "site/x.md" +:+ Str.dquote;
                     Str.dquote +:+ "x" +:+ Str.dquote +:+ "," +:+ Str.dquote
                       +:+ "site/xy.md" +:+ Str.dquote]
    +:+ Str.nl.
Proof. repeat split; vm_compute; reflexivity. Qed.

(** The run [--dir site --by-tag --no-summary --no-singletons --format csv
    --min-count 2] prints the files-by-tag view, with the tag [x] alone. *)
Example main_prints_by_tag_view :
  Fixture.main site_by_tag_args
  = ([], Some [Text ("# files_by_tag" +:+ Str.nl);
               Text (Str.join Str.nl
                       ["name,file";
                        Str.dquote +:+ "x" +:+ Str.dquote +:+ "," +:+ Str.dquote
                          +:+ "site/x.md" +:+ Str.dquote;
                        Str.dquote +:+ "x" +:+ Str.dquote +:+ "," +:+ Str.dquote
                          +:+ "site/xy.md" +:+ Str.dquote]
                     +:+ Str.nl)]).
Proof. vm_compute. reflexivity. Qed.

(** ** The order of a [dict] does not show *)

Lemma string_ltb_asym (a b : string) :
  String.ltb a b = true -> String.ltb b a = true -> False.
Proof.
  unfold String.ltb. rewrite (String.compare_antisym b a).
  destruct (String.compare a b); simpl; intros H1 H2; discriminate.
Qed.

Lemma alpha_before_asym (x y : string * Z) : alpha_before x y -> alpha_before y x -> x = y.
Proof. unfold alpha_before. intros H1 H2. destruct (string_ltb_asym _ _ H1 H2). Qed.

Lemma count_before_asym (x y : string * Z) : count_before x y -> count_before y x -> x = y.
Proof.
  unfold count_before. intros [H1|[E1 H1]] [H2|[E2 H2]]; try lia.
  destruct (string_ltb_asym _ _ H1 H2).
Qed.

Lemma filter_Permutation {X : Type} (f : X -> bool) (l l' : list X) :
  Permutation l l' -> Permutation (List.filter f l) (List.filter f l').
Proof.
  induction 1 as [|x l l' _ IH|x y l|l l' l'' _ IH1 _ IH2]; simpl.
  - constructor.
  - destruct (f x); [now constructor|exact IH].
  - destruct (f x), (f y); try reflexivity. apply perm_swap.
  - now transitivity (List.filter f l').
Qed.

(** [counter.items()] comes in the order of insertion; whatever that order
    is, the engine gives the result computed from [map_to_list]. *)
Lemma sort_and_filter_any_order (counter : gmap string Z) (items : list (string * Z))
    (mode : string) (min_count top : Z) :
  Permutation items (map_to_list counter) ->
  (let items := List.filter (fun kv : string * Z => min_count <=? kv.2) items in
   let items :=
     if String.eqb mode "alpha" then sorted_alpha items else sorted_count items in
   if 0 <? top then firstn (Z.to_nat top) items else items)
  = sort_and_filter counter mode min_count top.
Proof.
  intros Hp. rewrite sort_and_filter_eq. cbn zeta.
  set (kept := List.filter (fun kv : string * Z => min_count <=? kv.2) items).
  assert (Hk : Permutation kept (retained counter min_count))
    by (apply filter_Permutation; exact Hp).
  assert (Hnd : NoDup (map fst kept)).
  { eapply NoDup_names_Permutation; [symmetry; exact Hk|apply NoDup_retained]. }
  assert (Heq : (if String.eqb mode "alpha" then sorted_alpha kept else sorted_count kept)
                = (if String.eqb mode "alpha"
                   then sorted_alpha (retained counter min_count)
                   else sorted_count (retained counter min_count))).
  { destruct (String.eqb mode "alpha").
    - apply (StronglySorted_unique_strong alpha_before).
      + intros x y _ _. apply alpha_before_asym.
      + now apply sorted_alpha_ordered.
      + apply sorted_alpha_ordered, NoDup_retained.
      + unfold sorted_alpha. now rewrite !sort_by_Permutation.
    - apply (StronglySorted_unique_strong count_before).
      + intros x y _ _. apply count_before_asym.
      + now apply sorted_count_ordered.
      + apply sorted_count_ordered, NoDup_retained.
      + unfold sorted_count. now rewrite !sort_by_Permutation. }
  now rewrite Heq.
Qed.

(** * Further properties of the program *)

(** ** The front-matter markers *)

Lemma find_marker_spec (rest : list string) (idx : Z) :
  (find_marker idx rest = (-1, -1) /\ Forall (fun l => is_marker l = false) rest) \/
  (exists k : nat,
     find_marker idx rest = (0, idx + Z.of_nat k) /\
     (exists l, rest !! k = Some l /\ is_marker l = true) /\
     Forall (fun l => is_marker l = false) (firstn k rest)).
Proof.
  revert idx. induction rest as [|l rest IH]; intros idx.
  - left. split; [reflexivity|constructor].
  - cbn [find_marker]. fold (is_marker l). destruct (is_marker l) eqn:Hl.
    + right. exists 0%nat. split; [f_equal; lia|]. split; [eauto|constructor].
    + destruct (IH (idx + 1)) as [[Hf Hall]|[k (Hf & Hk & Hall)]].
      * left. split; [exact Hf|now constructor].
      * right. exists (S k). split; [rewrite Hf; f_equal; lia|].
        split; [exact Hk|]. cbn [firstn]. now constructor.
Qed.

(** X1: when [is_front_matter_yaml] finds a front matter it answers
    [(0, e)] where [e] is a line of the file after the first, the first
    line and the line [e] are marker lines, and no line between them is:
    the block ends at the first marker line after the opening one. *)
Theorem X1_front_matter_ends_at_first_marker (lines : list string) (s e : Z) :
  is_front_matter_yaml lines = (s, e) ->
  s <> -1 ->
  s = 0 /\
  1 <= e < Z.of_nat (length lines) /\
  (exists first, lines !! 0%nat = Some first /\ is_marker first = true) /\
  (exists last, lines !! Z.to_nat e = Some last /\ is_marker last = true) /\
  (forall (i : nat) (l : string),
     (1 <= i)%nat -> Z.of_nat i < e -> lines !! i = Some l -> is_marker l = false).
Proof.
  unfold is_front_matter_yaml. destruct lines as [|first rest]; [intros [= <- <-]; lia|].
  fold (is_marker first). destruct (is_marker first) eqn:Hfirst;
    [|cbn [negb]; intros [= <- <-]; lia].
  cbn [negb]. intros Hf Hs.
  destruct (find_marker_spec rest 1) as [[Hnone _]|[k (Hk & (l & Hl & Hm) & Hall)]];
    [rewrite Hnone in Hf; injection Hf as <- <-; lia|].
  rewrite Hk in Hf. injection Hf as <- <-.
  assert (Hlen : (k < length rest)%nat) by (apply lookup_lt_is_Some; eauto).
  split; [reflexivity|]. split; [cbn [length]; lia|].
  split; [exists first; split; [reflexivity|exact Hfirst]|].
  split.
  { exists l. replace (Z.to_nat (1 + Z.of_nat k)) with (S k) by lia.
    split; [exact Hl|exact Hm]. }
  intros i l' Hi Hlt Hl'. destruct i as [|i]; [lia|]. cbn in Hl'.
  rewrite List.Forall_forall in Hall. apply Hall.
  apply list_elem_of_In, list_elem_of_lookup. exists i.
  rewrite lookup_take_lt by lia. exact Hl'.
Qed.

(** X1 on a file whose block holds a line that strips to the marker. *)
Lemma X1_witness :
  1 <= 2 < Z.of_nat (length [Fixture.ln "---"; Fixture.ln "tags: [x]";
                             Fixture.ln " --- "; Fixture.ln "---"]) /\
  exists last,
    [Fixture.ln "---"; Fixture.ln "tags: [x]"; Fixture.ln " --- "; Fixture.ln "---"]
      !! Z.to_nat 2 = Some last /\ is_marker last = true.
Proof.
  destruct (X1_front_matter_ends_at_first_marker
              [Fixture.ln "---"; Fixture.ln "tags: [x]"; Fixture.ln " --- ";
               Fixture.ln "---"] 0 2 eq_refl ltac:(discriminate))
    as (_ & Hb & _ & Hl & _).
  split; [exact Hb|exact Hl].
Defined.

(** X2: [is_front_matter_yaml] answers [(-1, -1)] exactly when the file
    is empty, or its first line is not a marker line, or no later line is
    one: an opening marker that is never closed is no front matter. *)
Theorem X2_no_front_matter_iff (lines : list string) :
  is_front_matter_yaml lines = (-1, -1) <->
  match lines with
  | [] => True
  | first :: rest =>
      is_marker first = false \/ Forall (fun l => is_marker l = false) rest
  end.
Proof.
  unfold is_front_matter_yaml. destruct lines as [|first rest]; [tauto|].
  fold (is_marker first). destruct (is_marker first) eqn:Hfirst; cbn [negb];
    [|split; auto].
  destruct (find_marker_spec rest 1) as [[Hnone Hall]|[k (Hk & (l & Hl & Hm) & _)]].
  - rewrite Hnone. split; auto.
  - rewrite Hk. split; [discriminate|]. intros [Hf|Hall]; [discriminate|].
    rewrite List.Forall_forall in Hall.
    assert (Hin : In l rest) by (apply list_elem_of_In, list_elem_of_lookup; eauto).
    rewrite (Hall l Hin) in Hm. discriminate.
Qed.

(** ** The text after the front matter *)

Lemma slice_inside {X : Type} (l : list X) (a b : Z) :
  0 <= a <= b -> b <= Z.of_nat (length l) ->
  slice l a b = firstn (Z.to_nat (b - a)) (skipn (Z.to_nat a) l).
Proof.
  intros Ha Hb. unfold slice.
  destruct (Z.ltb_spec a 0); [lia|]. destruct (Z.ltb_spec b 0); [lia|].
  now rewrite !Z.min_l by lia.
Qed.

Lemma find_marker_first (rest : list string) (idx : Z) (k : nat) (l : string) :
  Forall (fun l => is_marker l = false) (firstn k rest) ->
  rest !! k = Some l -> is_marker l = true ->
  forall more, find_marker idx (firstn (S k) rest ++ more) = (0, idx + Z.of_nat k).
Proof.
  revert idx k. induction rest as [|x rest IH]; intros idx k Hall Hl Hm more;
    [discriminate|].
  destruct k as [|k].
  - cbn in Hl. injection Hl as ->. cbn [firstn app find_marker].
    fold (is_marker l). rewrite Hm. f_equal. lia.
  - cbn [firstn] in Hall. apply Forall_cons in Hall as [Hx Hall].
    cbn [firstn app find_marker]. fold (is_marker x). rewrite Hx.
    change (firstn (S k) rest) with (take (S k) rest).
    rewrite (IH (idx + 1) k Hall Hl Hm more). f_equal. lia.
Qed.

Section Body.

Variable read_lines : string -> string + list string.
Variable safe_load : string -> string + yaml_value.

(** X3: the lines after the closing marker are not looked at: a file that
    starts with the same lines up to the closing marker, whatever follows,
    is of the same kind and adds the same tags and categories. *)
Theorem X3_body_is_not_read (path path' : string) (lines body : list string) (e : Z) :
  read_lines path = inr lines ->
  is_front_matter_yaml lines = (0, e) ->
  read_lines path' = inr (firstn (Z.to_nat (e + 1)) lines ++ body) ->
  is_front_matter_yaml (firstn (Z.to_nat (e + 1)) lines ++ body) = (0, e) /\
  classify read_lines safe_load path' = classify read_lines safe_load path /\
  (forall ig, contribution read_lines safe_load ig path'
              = contribution read_lines safe_load ig path).
Proof.
  intros Hr Hm Hr'.
  assert (Hm' : is_front_matter_yaml (firstn (Z.to_nat (e + 1)) lines ++ body) = (0, e)
                /\ slice (firstn (Z.to_nat (e + 1)) lines ++ body) 1 e = slice lines 1 e).
  { unfold is_front_matter_yaml in Hm. destruct lines as [|first rest]; [discriminate|].
    fold (is_marker first) in Hm. destruct (is_marker first) eqn:Hfirst;
      [|discriminate]. cbn [negb] in Hm.
    destruct (find_marker_spec rest 1) as [[Hnone _]|[k (Hk & (l & Hl & Hml) & Hall)]];
      [congruence|].
    rewrite Hk in Hm. injection Hm as <-.
    assert (Hlen : (k < length rest)%nat) by (apply lookup_lt_is_Some; eauto).
    replace (Z.to_nat (1 + Z.of_nat k + 1)) with (S (S k)) by lia.
    split.
    - unfold is_front_matter_yaml. cbn [firstn app]. fold (is_marker first).
      rewrite Hfirst. cbn [negb]. apply (find_marker_first rest 1 k l Hall Hl Hml).
    - rewrite !slice_inside;
        [|lia|cbn [length]; lia|lia
         |rewrite length_app, length_firstn; cbn [length]; lia].
      replace (Z.to_nat (1 + Z.of_nat k - 1)) with k by lia.
      change (Z.to_nat 1) with 1%nat. cbn [firstn app skipn].
      change (firstn (S k) rest) with (take (S k) rest). rewrite !drop_0.
      rewrite take_app_le by (rewrite length_take; lia).
      rewrite take_take. f_equal. lia. }
  destruct Hm' as [Hm' Hs]. split; [exact Hm'|].
  assert (Hc : classify read_lines safe_load path' = classify read_lines safe_load path).
  { unfold classify. rewrite Hr, Hr', Hm, Hm'. cbn [Z.eqb]. change (0 + 1) with 1.
    now rewrite Hs. }
  split; [exact Hc|]. intros ig. unfold contribution. now rewrite Hc.
Qed.

End Body.

(** X3 on two files with the header [tags: [x]], one of them with a body
    that holds a marker line. *)
Lemma X3_witness :
  let read_lines := fun p : string =>
    if String.eqb p "long.md"
    then inr ([Fixture.ln "---"; Fixture.ln "tags: [x]"; Fixture.ln "---"]
              ++ [Fixture.ln "Body."; Fixture.ln "---"; Fixture.ln "tags: [y]"])
    else Fixture.read_lines p in
  contribution read_lines Fixture.safe_load false "long.md" = Some (["x"], []) /\
  contribution read_lines Fixture.safe_load false "long.md"
  = contribution read_lines Fixture.safe_load false "site/x.md".
Proof.
  intros read_lines.
  destruct (X3_body_is_not_read read_lines Fixture.safe_load "site/x.md" "long.md"
              [Fixture.ln "---"; Fixture.ln "tags: [x]"; Fixture.ln "---"]
              [Fixture.ln "Body."; Fixture.ln "---"; Fixture.ln "tags: [y]"] 2
              eq_refl eq_refl eq_refl) as (_ & _ & H).
  split; [vm_compute; reflexivity|exact (H false)].
Defined.

(** ** What [read_front_matter] returns, what stops the loop *)

Section Reading.

Variable read_lines : string -> string + list string.
Variable safe_load : string -> string + yaml_value.
Variable os_walk : string -> list (string * list string).

#[local] Abbreviation classify := (classify read_lines safe_load).
#[local] Abbreviation contribution := (contribution read_lines safe_load).
#[local] Abbreviation warnings_of := (warnings_of read_lines safe_load).
#[local] Abbreviation aborts := (aborts read_lines safe_load).
#[local] Abbreviation step := (step read_lines safe_load).
#[local] Abbreviation collect := (collect read_lines safe_load os_walk).
#[local] Abbreviation collect_paths := (collect_paths os_walk).

(** X4: [read_front_matter] never raises; it answers [None] exactly when
    it wrote a warning, it writes one warning at most and that warning
    names the file; a value it answers is the empty mapping or has a true
    truth value, so that the test [data == {}] of the loop catches every
    false value. *)
Theorem X4_read_front_matter_warns_iff_none (path : string) :
  exists (w : list warning) (data : option yaml_value),
    read_front_matter read_lines safe_load path = (w, Some data) /\
    (data = None <-> w <> []) /\
    (length w <= 1)%nat /\
    Forall (fun x => match x with ReadError p _ | YamlError p _ => p = path end) w /\
    match data with
    | Some v => v = YMap [] \/ truthy v = true
    | None => True
    end.
Proof.
  rewrite read_front_matter_classify.
  destruct (classify path) as [e| |e| |v|entries] eqn:Hc; eexists _, _;
    (split; [reflexivity|]); cbn [length].
  - repeat split; try discriminate; try lia; auto.
  - repeat split; try discriminate; try lia; auto. congruence.
  - repeat split; try discriminate; try lia; auto.
  - repeat split; try discriminate; try lia; auto. congruence.
  - apply classify_NotAMapping in Hc as [Hv _].
    repeat split; try discriminate; try lia; auto. congruence.
  - apply classify_Mapping_nonempty in Hc.
    repeat split; try discriminate; try lia; auto; [congruence|].
    right. now destruct entries.
Qed.

Lemma step_without_contribution (ig : bool) (st : collected) (p : string) :
  contribution ig p = None -> step ig st p = st.
Proof. intros H. unfold step. now rewrite H. Qed.

Lemma fold_step_filter (ig : bool) (paths : list string) (st : collected) :
  fold_left (step ig)
    (List.filter (fun p => bool_decide (is_Some (contribution ig p))) paths) st
  = fold_left (step ig) paths st.
Proof.
  revert st. induction paths as [|p paths IH]; intros st; [reflexivity|].
  cbn [List.filter fold_left].
  destruct (contribution ig p) as [tc|] eqn:Hp.
  - rewrite bool_decide_eq_true_2 by eauto. cbn [fold_left]. apply IH.
  - rewrite bool_decide_eq_false_2 by (intros [? ?]; discriminate).
    rewrite (step_without_contribution ig st p Hp). apply IH.
Qed.

Lemma contribution_quiet (ig : bool) (p : string) :
  is_Some (contribution ig p) -> warnings_of p = [] /\ aborts p = false.
Proof.
  unfold contribution, warnings_of, aborts.
  destruct (classify p); intros [? H]; try discriminate; auto.
Qed.

(** X5: a collection that returned wrote the warnings of its paths, in
    their order, one for every read that failed and every block the parser
    refused, and its result is the one built from the files that count
    alone: going through only those gives the same result and no warning. *)
Theorem X5_result_built_from_counted_files
    (content_dir : string) (exts : list string) (ignore_drafts : bool)
    (file_paths : option (list string)) (w : list warning) (r : collected) :
  collect content_dir exts ignore_drafts file_paths = (w, Some r) ->
  let paths := collect_paths content_dir exts file_paths in
  w = flat_map warnings_of paths /\
  collect_loop read_lines safe_load ignore_drafts
    (List.filter (fun p => bool_decide (is_Some (contribution ignore_drafts p))) paths)
    empty_collected
  = ([], Some r).
Proof.
  intros H paths. apply collect_Some in H as (_ & Hw & Hr). fold paths in Hw, Hr.
  split; [exact Hw|].
  set (counted := List.filter
                    (fun p => bool_decide (is_Some (contribution ignore_drafts p))) paths).
  pose proof (collect_loop_classify read_lines safe_load ignore_drafts counted
                empty_collected) as Hc.
  assert (Hq : forall p, In p counted -> warnings_of p = [] /\ aborts p = false).
  { intros p Hin. apply filter_In in Hin as [_ Hp].
    apply bool_decide_eq_true_1 in Hp. now apply contribution_quiet in Hp. }
  assert (Ha : existsb aborts counted = false).
  { destruct (existsb aborts counted) eqn:E; [|reflexivity].
    apply existsb_exists in E as [p [Hin Hp]]. destruct (Hq p Hin). congruence. }
  assert (Hn : flat_map warnings_of counted = []).
  { clear Hc Ha. induction counted as [|p l IH]; [reflexivity|]. cbn [flat_map].
    rewrite (proj1 (Hq p (or_introl eq_refl))). cbn [app].
    apply IH. intros q Hin. apply Hq. now right. }
  rewrite Ha in Hc. rewrite Hc, Hn. unfold counted.
  now rewrite fold_step_filter, Hr.
Qed.

(** X6: the loop raises exactly when one of its paths is a file that was
    read, has the two marker lines, and whose block the parser turned into
    a value that is true and is not a mapping; nothing else stops a
    collection. *)
Theorem X6_collect_raises_iff_non_mapping
    (content_dir : string) (exts : list string) (ignore_drafts : bool)
    (file_paths : option (list string)) :
  (collect content_dir exts ignore_drafts file_paths).2 = None <->
  exists (path : string) (v : yaml_value),
    In path (collect_paths content_dir exts file_paths) /\
    classify path = NotAMapping v.
Proof.
  set (paths := collect_paths content_dir exts file_paths).
  assert (Heq : collect content_dir exts ignore_drafts file_paths
                = collect_loop read_lines safe_load ignore_drafts paths empty_collected)
    by reflexivity.
  rewrite Heq.
  pose proof (collect_loop_classify read_lines safe_load ignore_drafts paths
                empty_collected) as Hc.
  destruct (existsb aborts paths) eqn:E.
  - split; [intros _|intros _; exact Hc].
    apply existsb_exists in E as [p [Hin Hp]]. unfold aborts in Hp.
    destruct (classify p) eqn:Hcl; try discriminate. eauto.
  - rewrite Hc. split; [discriminate|]. intros (p & v & Hin & Hcl).
    assert (Ht : existsb aborts paths = true).
    { apply existsb_exists. exists p. split; [exact Hin|].
      unfold aborts. now rewrite Hcl. }
    congruence.
Qed.

End Reading.

(** X5 on [content] without its drafts: two warnings, and the result of
    [content/go.md] alone. *)
Lemma X5_witness :
  collect_loop Fixture.read_lines Fixture.safe_load true ["content/go.md"] empty_collected
  = ([], Some go_result).
Proof.
  exact (proj2 (X5_result_built_from_counted_files
                  Fixture.read_lines Fixture.safe_load Fixture.os_walk
                  "content" [".md"] true None _ _ collect_content)).
Defined.

(** ** The walk *)

Lemma str_length_app (a b : string) :
  String.length (a +:+ b) = (String.length a + String.length b)%nat.
Proof. induction a as [|c a IH]; simpl; [reflexivity|now rewrite IH]. Qed.

Lemma str_app_assoc (a b c : string) : (a +:+ b) +:+ c = a +:+ (b +:+ c).
Proof.
  induction a as [|x a IH]; [reflexivity|].
  change (String x ((a +:+ b) +:+ c) = String x (a +:+ (b +:+ c))). now f_equal.
Qed.

Lemma substring_whole (x : string) : String.substring 0 (String.length x) x = x.
Proof. induction x as [|c x IH]; simpl; [reflexivity|now rewrite IH]. Qed.

Lemma substring_app_skip (p s : string) (m : nat) :
  String.substring (String.length p) m (p +:+ s) = String.substring 0 m s.
Proof. induction p as [|c p IH]; simpl; [reflexivity|exact IH]. Qed.

Lemma substring_split (s : string) (n : nat) :
  (n <= String.length s)%nat ->
  String.substring 0 n s +:+ String.substring n (String.length s - n) s = s.
Proof.
  revert n. induction s as [|c s IH]; intros n Hn; simpl in Hn.
  - now replace n with 0%nat by lia.
  - destruct n as [|n].
    + change (String.substring 0 (String.length (String c s)) (String c s) = String c s).
      apply substring_whole.
    + change (String c (String.substring 0 n s
                        +:+ String.substring n (String.length s - n) s) = String c s).
      rewrite IH by lia. reflexivity.
Qed.

(** [s.endswith(x)] holds exactly for the strings that are some text
    followed by [x]. *)
Lemma endswith_iff (x s : string) :
  Str.endswith x s = true <-> exists p, s = p +:+ x.
Proof.
  unfold Str.endswith. split.
  - intros H. apply andb_true_iff in H as [Hk Hs].
    apply Nat.leb_le in Hk. apply String.eqb_eq in Hs.
    exists (String.substring 0 (String.length s - String.length x) s).
    pose proof (substring_split s (String.length s - String.length x)) as Hsp.
    replace (String.length s - (String.length s - String.length x))%nat
      with (String.length x) in Hsp by lia.
    rewrite Hs in Hsp. symmetry. apply Hsp. lia.
  - intros [p ->]. rewrite str_length_app. apply andb_true_iff. split.
    + apply Nat.leb_le. lia.
    + replace (String.length p + String.length x - String.length x)%nat
        with (String.length p) by lia.
      rewrite substring_app_skip, substring_whole. apply String.eqb_refl.
Qed.

Lemma endswith_app_l (x a b : string) :
  Str.endswith x b = true -> Str.endswith x (a +:+ b) = true.
Proof.
  intros H. apply endswith_iff in H as [p ->]. apply endswith_iff.
  exists (a +:+ p). symmetry. apply str_app_assoc.
Qed.

Lemma endswith_path_join (x root filename : string) :
  Str.endswith x filename = true -> Str.endswith x (path_join root filename) = true.
Proof.
  intros H. unfold path_join. destruct (Str.startswith "/" filename); [exact H|].
  destruct (negb (Str.nonempty root) || Str.endswith "/" root).
  - now apply endswith_app_l.
  - now apply endswith_app_l, endswith_app_l.
Qed.

(** X7: [iter_paths] yields the joined path of the files of the walk whose
    name ends with one of the extensions, and nothing else; every path it
    yields ends with one of the extensions, and it yields nothing when
    there is no extension. *)
Theorem X7_iter_paths_yields_matching_files
    (os_walk : string -> list (string * list string))
    (content_dir : string) (exts : list string) :
  (forall p,
     In p (iter_paths os_walk content_dir exts) <->
     exists root files filename,
       In (root, files) (os_walk content_dir) /\ In filename files /\
       (exists ext, In ext exts /\ Str.endswith ext filename = true) /\
       p = path_join root filename) /\
  Forall (fun p => exists ext, In ext exts /\ Str.endswith ext p = true)
    (iter_paths os_walk content_dir exts) /\
  iter_paths os_walk content_dir [] = [].
Proof.
  assert (Hiff : forall p,
     In p (iter_paths os_walk content_dir exts) <->
     exists root files filename,
       In (root, files) (os_walk content_dir) /\ In filename files /\
       (exists ext, In ext exts /\ Str.endswith ext filename = true) /\
       p = path_join root filename).
  { intros p. unfold iter_paths. rewrite in_flat_map. split.
    - intros [[root files] [Hin Hp]]. apply in_flat_map in Hp as [filename [Hf Hp]].
      destruct (existsb _ exts) eqn:E; [|destruct Hp].
      destruct Hp as [<-|[]]. apply existsb_exists in E as [ext [He Hend]].
      exists root, files, filename. eauto 6.
    - intros (root & files & filename & Hin & Hf & [ext [He Hend]] & ->).
      exists (root, files). split; [exact Hin|]. apply in_flat_map.
      exists filename. split; [exact Hf|].
      assert (E : existsb (fun ext => Str.endswith ext filename) exts = true)
        by (apply existsb_exists; eauto).
      rewrite E. now left. }
  split; [exact Hiff|]. split.
  { apply List.Forall_forall. intros p Hp.
    apply Hiff in Hp as (root & files & filename & _ & _ & [ext [He Hend]] & ->).
    exists ext. split; [exact He|now apply endswith_path_join]. }
  clear Hiff. unfold iter_paths.
  induction (os_walk content_dir) as [|[root files] l IH];
    [reflexivity|]. cbn [flat_map]. rewrite IH, app_nil_r.
  induction files as [|f files IHf]; [reflexivity|exact IHf].
Qed.

(** ** The scope of a run *)

Lemma sort_and_filter_empty (mode : string) (min_count top : Z) :
  sort_and_filter ∅ mode min_count top = [].
Proof.
  unfold sort_and_filter. rewrite map_to_list_empty. cbn [List.filter].
  destruct (String.eqb mode "alpha"); cbn [sort_by foldr];
    destruct (0 <? top); try reflexivity; now destruct (Z.to_nat top).
Qed.

Lemma singleton_rows_empty : singleton_rows ∅ = [].
Proof. unfold singleton_rows. now rewrite map_to_list_empty. Qed.

Section Scope.

Variable read_lines : string -> string + list string.
Variable safe_load : string -> string + yaml_value.
Variable os_walk : string -> list (string * list string).
Variable json_dumps : json -> string.
Variable stdout_isatty : bool.

#[local] Abbreviation main := (main read_lines safe_load os_walk json_dumps stdout_isatty).
#[local] Abbreviation report := (report json_dumps stdout_isatty).

(** X8: with [--file f], [f] not empty, the run reads the one file [f]:
    what it writes and prints is the report of the loop body on [f] from
    the empty state, and the directory and the extensions of the command
    line play no role. *)
Theorem X8_single_file_mode (a : args) (f : string) :
  a_file a = Some f ->
  f <> "" ->
  main a = (r <~ collect_file read_lines safe_load (a_ignore_drafts a) empty_collected f;
            run_ret (report a r)) /\
  (forall dir ext, main (with_scope a dir ext) = main a).
Proof.
  intros Hf Hne.
  assert (Hp : file_paths_of (a_file a) = Some [f]).
  { rewrite Hf. unfold file_paths_of. now destruct f. }
  split.
  - unfold main, collect. rewrite Hp. cbn [collect_paths collect_loop].
    destruct (collect_file read_lines safe_load (a_ignore_drafts a) empty_collected f)
      as [w [st|]]; cbn [run_bind run_ret]; [|reflexivity].
    now rewrite app_nil_r.
  - intros dir ext. unfold main, collect. cbn [with_scope a_file a_dir a_ext a_ignore_drafts].
    rewrite Hp. reflexivity.
Qed.

(** X9: a run that finds no file is no error.  When the walk yields no
    path for the extensions of the command line (the directory does not
    exist, or it holds no file, or none of its files ends with one of the
    extensions) and there is no [--file], the run writes no warning and
    prints the report of the empty state, whose summary and singleton
    tables have no row and whose mapping views have no key. *)
Theorem X9_no_matching_file_gives_empty_report (a : args) :
  iter_paths os_walk (a_dir a) (exts_of (a_ext a)) = [] ->
  file_paths_of (a_file a) = None ->
  main a = ([], Some (report a empty_collected)) /\
  sort_and_filter (tags_counter empty_collected) (a_sort a) (a_min_count a) (a_top a) = [] /\
  sort_and_filter (cats_counter empty_collected) (a_sort a) (a_min_count a) (a_top a) = [] /\
  singleton_rows (tag_to_files empty_collected) = [] /\
  singleton_rows (cat_to_files empty_collected) = [] /\
  ordered_keys_from a (tags_counter empty_collected) = [] /\
  ordered_keys_from a (cats_counter empty_collected) = [].
Proof.
  intros Hw Hp. split.
  - unfold main, collect, collect_paths. rewrite Hp, Hw. reflexivity.
  - cbn [empty_collected tags_counter cats_counter tag_to_files cat_to_files].
    unfold ordered_keys_from.
    rewrite !sort_and_filter_empty, singleton_rows_empty. auto 10.
Qed.

End Scope.

(** X8 on [--file content/go.md]. *)
Lemma X8_witness :
  Fixture.main (with_scope go_file_args "elsewhere" ".txt") = Fixture.main go_file_args.
Proof.
  exact (proj2 (X8_single_file_mode Fixture.read_lines Fixture.safe_load Fixture.os_walk
                  Fixture.json_dumps false go_file_args "content/go.md" eq_refl
                  ltac:(discriminate))
               "elsewhere" ".txt").
Defined.

(** X9 on the directory [content], which is walked and holds files, none
    of them with the extension [.rst]. *)
Lemma X9_witness :
  Fixture.os_walk "content" <> [] /\
  Fixture.main (with_scope Fixture.default_args "content" "rst")
  = ([], Some (report Fixture.json_dumps false
                 (with_scope Fixture.default_args "content" "rst") empty_collected)).
Proof.
  split; [discriminate|].
  exact (proj1 (X9_no_matching_file_gives_empty_report
                  Fixture.read_lines Fixture.safe_load Fixture.os_walk
                  Fixture.json_dumps false
                  (with_scope Fixture.default_args "content" "rst") eq_refl eq_refl)).
Defined.

(** The default command line, whose directory [./content] is not in the
    tree: the walk visits nothing. *)
Example missing_directory_gives_empty_report :
  Fixture.os_walk "./content" = [] /\
  Fixture.main Fixture.default_args
  = ([], Some (report Fixture.json_dumps false Fixture.default_args empty_collected)).
Proof. split; vm_compute; reflexivity. Qed.

(** ** The inverse mappings, path by path *)

Lemma files_of_insert (m : gmap string (list string)) (x n : string) (l : list string) :
  files_of (<[x := l]> m) n = if String.eqb n x then l else files_of m n.
Proof.
  unfold files_of. destruct (String.eqb_spec n x) as [->|Hne].
  - now rewrite lookup_insert_eq.
  - rewrite lookup_insert_ne; [reflexivity|congruence].
Qed.

Lemma files_of_append_path (path : string) (names : list string)
    (m : gmap string (list string)) (n : string) :
  files_of (append_path path m names) n
  = files_of m n ++ repeat path (times_listed n names).
Proof.
  unfold append_path, times_listed. revert m.
  induction names as [|x names IH]; intros m; cbn [fold_left List.filter].
  - cbn. now rewrite app_nil_r.
  - rewrite IH, files_of_insert. destruct (String.eqb_spec n x) as [->|Hne].
    + cbn [length repeat]. now rewrite <- app_assoc.
    + reflexivity.
Qed.

Lemma occurrences_times_listed (n : string) (names : list string) :
  occurrences n names = Z.of_nat (times_listed n names).
Proof. reflexivity. Qed.

Lemma In_times_listed (n : string) (names : list string) :
  (0 < times_listed n names)%nat <-> In n names.
Proof. rewrite <- occurrences_pos_In, occurrences_times_listed. lia. Qed.

Section InverseMappings.

Variable read_lines : string -> string + list string.
Variable safe_load : string -> string + yaml_value.
Variable os_walk : string -> list (string * list string).

#[local] Abbreviation step := (step read_lines safe_load).
#[local] Abbreviation contribution := (contribution read_lines safe_load).
#[local] Abbreviation tags_of := (tags_of read_lines safe_load).
#[local] Abbreviation cats_of := (cats_of read_lines safe_load).
#[local] Abbreviation collect := (collect read_lines safe_load os_walk).
#[local] Abbreviation collect_paths := (collect_paths os_walk).

Lemma step_tag_to_files ig st p n :
  files_of (tag_to_files (step ig st p)) n
  = files_of (tag_to_files st) n ++ repeat p (times_listed n (tags_of ig p)).
Proof.
  unfold step, tags_of. destruct (contribution ig p) as [[t c]|];
    cbn [record_file tag_to_files].
  - apply files_of_append_path.
  - cbn. now rewrite app_nil_r.
Qed.

Lemma step_cat_to_files ig st p n :
  files_of (cat_to_files (step ig st p)) n
  = files_of (cat_to_files st) n ++ repeat p (times_listed n (cats_of ig p)).
Proof.
  unfold step, cats_of. destruct (contribution ig p) as [[t c]|];
    cbn [record_file cat_to_files].
  - apply files_of_append_path.
  - cbn. now rewrite app_nil_r.
Qed.

Lemma fold_step_tag_to_files ig paths st n :
  files_of (tag_to_files (fold_left (step ig) paths st)) n
  = files_of (tag_to_files st) n
    ++ flat_map (fun p => repeat p (times_listed n (tags_of ig p))) paths.
Proof.
  revert st. induction paths as [|p paths IH]; intros st; cbn [fold_left flat_map].
  - now rewrite app_nil_r.
  - now rewrite IH, step_tag_to_files, <- app_assoc.
Qed.

Lemma fold_step_cat_to_files ig paths st n :
  files_of (cat_to_files (fold_left (step ig) paths st)) n
  = files_of (cat_to_files st) n
    ++ flat_map (fun p => repeat p (times_listed n (cats_of ig p))) paths.
Proof.
  revert st. induction paths as [|p paths IH]; intros st; cbn [fold_left flat_map].
  - now rewrite app_nil_r.
  - now rewrite IH, step_cat_to_files, <- app_assoc.
Qed.

Lemma In_repeated_paths (f : string -> nat) (paths : list string) (path : string) :
  In path (flat_map (fun p => repeat p (f p)) paths) <->
  In path paths /\ (0 < f path)%nat.
Proof.
  rewrite in_flat_map. split.
  - intros [p [Hp Hin]]. apply repeat_spec in Hin as Heq. subst p.
    split; [exact Hp|]. destruct (f path); [destruct Hin|lia].
  - intros [Hp Hf]. exists path. split; [exact Hp|].
    destruct (f path) as [|k]; [lia|]. now left.
Qed.

(** X10: after a collection that returned, the entry of a tag in the
    inverse mapping lists the paths gone through, in their order, each as
    many times as the normalised tag list of its file holds the tag (not at
    all for a file that does not count): a path is in the entry exactly
    when it was gone through and its file lists the tag.  The same for
    categories. *)
Theorem X10_inverse_mapping_lists_paths
    (content_dir : string) (exts : list string) (ignore_drafts : bool)
    (file_paths : option (list string)) (w : list warning) (r : collected) :
  collect content_dir exts ignore_drafts file_paths = (w, Some r) ->
  forall name : string,
    let paths := collect_paths content_dir exts file_paths in
    files_of (tag_to_files r) name
      = flat_map (fun p => repeat p (times_listed name (tags_of ignore_drafts p))) paths /\
    files_of (cat_to_files r) name
      = flat_map (fun p => repeat p (times_listed name (cats_of ignore_drafts p))) paths /\
    (forall path, In path (files_of (tag_to_files r) name) <->
                  In path paths /\ In name (tags_of ignore_drafts path)) /\
    (forall path, In path (files_of (cat_to_files r) name) <->
                  In path paths /\ In name (cats_of ignore_drafts path)).
Proof.
  intros H name paths. apply collect_Some in H as (_ & _ & ->). fold paths.
  assert (Ht := fold_step_tag_to_files ignore_drafts paths empty_collected name).
  assert (Hc := fold_step_cat_to_files ignore_drafts paths empty_collected name).
  cbn [empty_collected tag_to_files cat_to_files] in Ht, Hc.
  unfold files_of at 2 in Ht. unfold files_of at 2 in Hc.
  rewrite lookup_empty in Ht, Hc. cbn [default app] in Ht, Hc.
  split; [exact Ht|]. split; [exact Hc|]. split; intros path.
  - rewrite Ht, In_repeated_paths, In_times_listed. reflexivity.
  - rewrite Hc, In_repeated_paths, In_times_listed. reflexivity.
Qed.

End InverseMappings.

(** X10 on the scenario file: both occurrences of [go] put the path in
    the entry. *)
Lemma X10_witness :
  files_of (tag_to_files go_result) "go" = ["content/go.md"; "content/go.md"] /\
  files_of (tag_to_files go_result) "ada" = [].
Proof.
  pose proof (X10_inverse_mapping_lists_paths
                Fixture.read_lines Fixture.safe_load Fixture.os_walk
                "content" [".md"] false (Some ["content/go.md"]) [] go_result
                collect_go_result) as H.
  split; [exact (proj1 (H "go"))|exact (proj1 (H "ada"))].
Defined.

(** ** The order of the walk *)

Lemma sorted_strings_Permutation (l l' : list string) :
  Permutation l l' -> sorted_strings l = sorted_strings l'.
Proof.
  intros Hp. unfold sorted_strings.
  apply (StronglySorted_unique_strong (key_le (fun s : string => s) String.leb)).
  - intros x y _ _. unfold key_le. apply String.leb_antisym.
  - apply (sort_by_StronglySorted _ _ String.leb_total string_leb_trans).
  - apply (sort_by_StronglySorted _ _ String.leb_total string_leb_trans).
  - now rewrite !sort_by_Permutation.
Qed.

Lemma dict_comprehension_ext {V : Type} (f g : string -> V) (keys : list string) :
  (forall k, f k = g k) -> dict_comprehension f keys = dict_comprehension g keys.
Proof.
  intros Hfg. unfold dict_comprehension. generalize (@nil (string * V)).
  induction keys as [|k keys IH]; intros d; [reflexivity|].
  cbn [fold_left]. now rewrite Hfg, IH.
Qed.

Lemma fold_left_ext_list {X Y : Type} (F G : Y -> X -> Y) (l : list X) (y : Y) :
  (forall y x, F y x = G y x) -> fold_left F l y = fold_left G l y.
Proof.
  intros H. revert y. induction l as [|x l IH]; intros y; [reflexivity|].
  cbn [fold_left]. now rewrite H, IH.
Qed.

Lemma same_paths_sorted (m m' : gmap string (list string)) (k : string) :
  same_paths m m' -> sorted_strings (files_of m k) = sorted_strings (files_of m' k).
Proof. intros H. apply sorted_strings_Permutation, H. Qed.

(** The renderers of a mapping look at the sorted paths of a key only. *)
Lemma mapping_section_same_paths (json_dumps : json -> string) (a : args)
    (header comment header_key : string) (keys : list string)
    (m m' : gmap string (list string)) :
  same_paths m m' ->
  mapping_section json_dumps a header comment header_key keys m
  = mapping_section json_dumps a header comment header_key keys m'.
Proof.
  intros H. unfold mapping_section.
  assert (Ht : render_mapping_text header keys m = render_mapping_text header keys m').
  { unfold render_mapping_text. destruct keys as [|k keys]; [reflexivity|].
    f_equal. f_equal. apply fold_left_ext_list. intros out key.
    now rewrite (same_paths_sorted m m' key H). }
  assert (Hm : render_mapping_markdown header keys m
               = render_mapping_markdown header keys m').
  { unfold render_mapping_markdown. destruct keys as [|k keys]; [reflexivity|].
    f_equal. apply fold_left_ext_list. intros out key.
    now rewrite (same_paths_sorted m m' key H). }
  assert (Hc : render_mapping_csv keys m = render_mapping_csv keys m').
  { unfold render_mapping_csv. f_equal. f_equal. apply fold_left_ext_list.
    intros out key. now rewrite (same_paths_sorted m m' key H). }
  assert (Hj : render_mapping_json json_dumps keys m header_key
               = render_mapping_json json_dumps keys m' header_key).
  { unfold render_mapping_json, mapping_payload. do 5 f_equal.
    apply dict_comprehension_ext. intros k.
    now rewrite (same_paths_sorted m m' k H). }
  now rewrite Ht, Hm, Hc, Hj.
Qed.

Lemma sorted_names_NoDup (l : list (string * Z)) :
  StronglySorted alpha_before l -> NoDup (map fst l).
Proof.
  induction 1 as [|a l Hl IH Ha]; [constructor|].
  cbn [map]. apply NoDup_cons. split; [|exact IH].
  intros Hin. apply list_elem_of_In, in_map_iff in Hin as [b [Hb Hin]].
  rewrite List.Forall_forall in Ha. specialize (Ha b Hin).
  unfold alpha_before in Ha. rewrite Hb in Ha.
  exact (string_ltb_asym _ _ Ha Ha).
Qed.

Lemma singleton_rows_same_paths (m m' : gmap string (list string)) :
  same_paths m m' -> singleton_rows m = singleton_rows m'.
Proof.
  intros H.
  assert (Hone : forall (m1 m2 : gmap string (list string)) name file,
            same_paths m1 m2 -> m1 !! name = Some [file] -> m2 !! name = Some [file]).
  { intros m1 m2 name file H12 H1. specialize (H12 name). unfold files_of in H12.
    rewrite H1 in H12. simpl in H12.
    apply Permutation_length_1_inv in H12.
    destruct (m2 !! name) as [l|]; simpl in H12; [now subst l|discriminate]. }
  assert (Hsym : same_paths m' m) by (intros k; symmetry; apply H).
  apply (StronglySorted_unique_strong alpha_before).
  - intros x y _ _. apply alpha_before_asym.
  - apply singleton_rows_ordered.
  - apply singleton_rows_ordered.
  - apply NoDup_Permutation.
    + apply (NoDup_fmap_1 fst). apply (sorted_names_NoDup (singleton_rows m)).
      apply singleton_rows_ordered.
    + apply (NoDup_fmap_1 fst). apply (sorted_names_NoDup (singleton_rows m')).
      apply singleton_rows_ordered.
    + intros [name count]. rewrite !list_elem_of_In, !In_singleton_rows.
      split; intros [-> [file Hf]]; (split; [reflexivity|]); exists file; eauto.
Qed.

Lemma occurrences_Permutation (n : string) (l l' : list string) :
  Permutation l l' -> occurrences n l = occurrences n l'.
Proof.
  intros H. unfold occurrences. f_equal. apply Permutation_length.
  now apply filter_Permutation.
Qed.

Lemma linked_lookup_count (c : gmap string Z) (m : gmap string (list string))
    (n : string) :
  linked c m -> c !! n = if 0 <? count_of c n then Some (count_of c n) else None.
Proof.
  intros H. destruct (linked_lookup c m n H) as [Hc _]. unfold count_of.
  destruct (c !! n) as [v|] eqn:Hv; simpl; [|reflexivity].
  destruct (Hc v eq_refl) as (_ & _ & _ & Hpos).
  destruct (Z.ltb_spec 0 v); [reflexivity|lia].
Qed.

Section WalkOrder.

Variable read_lines : string -> string + list string.
Variable safe_load : string -> string + yaml_value.

#[local] Abbreviation step := (step read_lines safe_load).
#[local] Abbreviation aborts := (aborts read_lines safe_load).
#[local] Abbreviation warnings_of := (warnings_of read_lines safe_load).
#[local] Abbreviation tags_of := (tags_of read_lines safe_load).
#[local] Abbreviation cats_of := (cats_of read_lines safe_load).
#[local] Abbreviation collect_loop := (collect_loop read_lines safe_load).

Lemma report_same (json_dumps : json -> string) (tty : bool) (a : args)
    (r r' : collected) :
  tags_counter r' = tags_counter r ->
  cats_counter r' = cats_counter r ->
  file_usage r' = file_usage r ->
  same_paths (tag_to_files r') (tag_to_files r) ->
  same_paths (cat_to_files r') (cat_to_files r) ->
  report json_dumps tty a r' = report json_dumps tty a r.
Proof.
  intros Ht Hc Hu Hmt Hmc.
  unfold report, summary_section, singletons_section, by_tag_section, by_cat_section.
  rewrite Ht, Hc, Hu.
  rewrite (singleton_rows_same_paths _ _ Hmt), (singleton_rows_same_paths _ _ Hmc).
  rewrite (mapping_section_same_paths json_dumps a _ _ _ _ _ _ Hmt).
  rewrite (mapping_section_same_paths json_dumps a _ _ _ _ _ _ Hmc).
  reflexivity.
Qed.

(** X11: the order in which the paths are gone through does not show in
    the report.  When the loop returns on a list of paths it returns on any
    rearrangement of it, with the same warnings up to their order, the same
    counters, the same usage records, inverse mappings that list the same
    paths for every name up to their order, and, for every command line
    and every format, the same report. *)
Theorem X11_report_independent_of_path_order
    (ignore_drafts : bool) (paths paths' : list string)
    (w : list warning) (r : collected) :
  Permutation paths paths' ->
  collect_loop ignore_drafts paths empty_collected = (w, Some r) ->
  exists (w' : list warning) (r' : collected),
    collect_loop ignore_drafts paths' empty_collected = (w', Some r') /\
    Permutation w w' /\
    tags_counter r' = tags_counter r /\
    cats_counter r' = cats_counter r /\
    file_usage r' = file_usage r /\
    same_paths (tag_to_files r') (tag_to_files r) /\
    same_paths (cat_to_files r') (cat_to_files r) /\
    (forall json_dumps tty a, report json_dumps tty a r' = report json_dumps tty a r).
Proof.
  intros Hp H. apply collect_loop_Some in H as (Ha & -> & ->).
  assert (Ha' : existsb aborts paths' = false).
  { destruct (existsb aborts paths') eqn:E; [|reflexivity].
    apply existsb_exists in E as [p [Hin Hab]].
    assert (Hin' : In p paths) by (apply (Permutation_in _ (Permutation_sym Hp)), Hin).
    assert (Ht : existsb aborts paths = true) by (apply existsb_exists; eauto).
    congruence. }
  pose proof (collect_loop_classify read_lines safe_load ignore_drafts paths'
                empty_collected) as Hc.
  rewrite Ha' in Hc. eexists _, _. split; [exact Hc|].
  pose proof (fold_step_linked read_lines safe_load ignore_drafts paths
                empty_collected (conj linked_empty linked_empty)) as [Lt Lc].
  pose proof (fold_step_linked read_lines safe_load ignore_drafts paths'
                empty_collected (conj linked_empty linked_empty)) as [Lt' Lc'].
  assert (Htc : tags_counter (fold_left (step ignore_drafts) paths' empty_collected)
                = tags_counter (fold_left (step ignore_drafts) paths empty_collected)).
  { apply map_eq. intros n.
    rewrite (linked_lookup_count _ _ n Lt), (linked_lookup_count _ _ n Lt').
    rewrite !fold_step_tags_counter, !count_of_counter_update.
    now rewrite (occurrences_Permutation n _ _ (Permutation_flat_map _ Hp)). }
  assert (Hcc : cats_counter (fold_left (step ignore_drafts) paths' empty_collected)
                = cats_counter (fold_left (step ignore_drafts) paths empty_collected)).
  { apply map_eq. intros n.
    rewrite (linked_lookup_count _ _ n Lc), (linked_lookup_count _ _ n Lc').
    rewrite !fold_step_cats_counter, !count_of_counter_update.
    now rewrite (occurrences_Permutation n _ _ (Permutation_flat_map _ Hp)). }
  assert (Hu : file_usage (fold_left (step ignore_drafts) paths' empty_collected)
               = file_usage (fold_left (step ignore_drafts) paths empty_collected)).
  { apply map_eq. intros p. rewrite !fold_step_file_usage.
    assert (Hb : bool_decide (p ∈ paths') = bool_decide (p ∈ paths))
      by (apply bool_decide_ext; now rewrite Hp).
    now rewrite Hb. }
  assert (Hmt : same_paths
                  (tag_to_files (fold_left (step ignore_drafts) paths' empty_collected))
                  (tag_to_files (fold_left (step ignore_drafts) paths empty_collected))).
  { intros n. rewrite !fold_step_tag_to_files. apply Permutation_app_head.
    apply Permutation_flat_map. now symmetry. }
  assert (Hmc : same_paths
                  (cat_to_files (fold_left (step ignore_drafts) paths' empty_collected))
                  (cat_to_files (fold_left (step ignore_drafts) paths empty_collected))).
  { intros n. rewrite !fold_step_cat_to_files. apply Permutation_app_head.
    apply Permutation_flat_map. now symmetry. }
  split; [now apply Permutation_flat_map|].
  split; [exact Htc|]. split; [exact Hcc|]. split; [exact Hu|].
  split; [exact Hmt|]. split; [exact Hmc|].
  intros json_dumps tty a. now apply report_same.
Qed.

End WalkOrder.

(** X11 on the two files of [site], walked in the other order. *)
Lemma X11_witness :
  exists (w' : list warning) (r' : collected),
    collect_loop Fixture.read_lines Fixture.safe_load false ["site/xy.md"; "site/x.md"]
      empty_collected = (w', Some r') /\
    tags_counter r' = tags_counter site_result /\
    forall a, report Fixture.json_dumps false a r'
              = report Fixture.json_dumps false a site_result.
Proof.
  destruct (X11_report_independent_of_path_order
              Fixture.read_lines Fixture.safe_load false
              ["site/x.md"; "site/xy.md"] ["site/xy.md"; "site/x.md"] [] site_result
              (perm_swap _ _ _) collect_site_result)
    as (w' & r' & H1 & _ & H2 & _ & _ & _ & _ & H3).
  exists w', r'. split; [exact H1|]. split; [exact H2|].
  intros a. apply H3.
Defined.

(** ** Drafts, totals *)

Lemma occurrences_flat_map_le {X : Type} (f g : X -> list string) (l : list X)
    (n : string) :
  (forall x, f x = g x \/ f x = []) ->
  occurrences n (flat_map f l) <= occurrences n (flat_map g l).
Proof.
  intros H. induction l as [|x l IH]; cbn [flat_map]; [lia|].
  rewrite !occurrences_app. pose proof (occurrences_nonneg n (g x)).
  destruct (H x) as [-> | ->]; [lia|]. change (occurrences n []) with 0. lia.
Qed.

Lemma total_from (rows : list (string * Z)) (acc : Z) :
  fold_left (fun acc r => acc + r.2) rows acc = acc + total rows.
Proof.
  unfold total. revert acc. induction rows as [|r rows IH]; intros acc; cbn [fold_left].
  - lia.
  - rewrite IH, (IH (0 + r.2)). lia.
Qed.

Lemma total_cons (r : string * Z) (rows : list (string * Z)) :
  total (r :: rows) = r.2 + total rows.
Proof. unfold total at 1. cbn [fold_left]. rewrite total_from. lia. Qed.

Lemma total_Permutation (l l' : list (string * Z)) :
  Permutation l l' -> total l = total l'.
Proof.
  induction 1 as [|x l l' _ IH|x y l|l l' l'' _ IH1 _ IH2];
    rewrite ?total_cons; lia.
Qed.

Lemma total_insert (c : gmap string Z) (n : string) (v : Z) :
  total (map_to_list (<[n := v]> c)) = total (map_to_list c) - count_of c n + v.
Proof.
  unfold count_of. destruct (c !! n) as [x|] eqn:Hx; simpl.
  - rewrite <- (insert_delete_eq c n v).
    rewrite (total_Permutation _ _ (map_to_list_insert (delete n c) n v
                                      (lookup_delete_eq c n))).
    rewrite <- (total_Permutation _ _ (map_to_list_delete c n x Hx)).
    rewrite !total_cons. simpl. lia.
  - rewrite (total_Permutation _ _ (map_to_list_insert c n v Hx)).
    rewrite total_cons. simpl. lia.
Qed.

(** The counts of a counter add up to the number of names it was given. *)
Lemma total_counter_update (c : gmap string Z) (names : list string) :
  total (map_to_list (counter_update c names))
  = total (map_to_list c) + Z.of_nat (length names).
Proof.
  unfold counter_update. revert c.
  induction names as [|x names IH]; intros c; cbn [fold_left length]; [lia|].
  rewrite IH, total_insert. lia.
Qed.

Lemma filter_all {X : Type} (f : X -> bool) (l : list X) :
  Forall (fun x => f x = true) l -> List.filter f l = l.
Proof.
  induction 1 as [|x l Hx _ IH]; cbn [List.filter]; [reflexivity|].
  now rewrite Hx, IH.
Qed.

Section DraftsAndTotals.

Variable read_lines : string -> string + list string.
Variable safe_load : string -> string + yaml_value.
Variable os_walk : string -> list (string * list string).

#[local] Abbreviation step := (step read_lines safe_load).
#[local] Abbreviation aborts := (aborts read_lines safe_load).
#[local] Abbreviation contribution := (contribution read_lines safe_load).
#[local] Abbreviation tags_of := (tags_of read_lines safe_load).
#[local] Abbreviation cats_of := (cats_of read_lines safe_load).
#[local] Abbreviation collect := (collect read_lines safe_load os_walk).
#[local] Abbreviation collect_paths := (collect_paths os_walk).

Lemma contribution_drafts (p : string) :
  contribution true p = contribution false p \/ contribution true p = None.
Proof.
  unfold contribution. destruct (classify read_lines safe_load p); auto.
  cbn [andb]. destruct (truthy _); auto.
Qed.

(** X12: leaving the drafts out only takes away.  When the collection
    returns with the drafts it returns without them, with the same
    warnings; no count of a tag or of a category is larger than with the
    drafts, and every usage record is a record of the collection with the
    drafts. *)
Theorem X12_ignoring_drafts_only_removes
    (content_dir : string) (exts : list string)
    (file_paths : option (list string)) (w : list warning) (r : collected) :
  collect content_dir exts false file_paths = (w, Some r) ->
  exists r' : collected,
    collect content_dir exts true file_paths = (w, Some r') /\
    (forall name, count_of (tags_counter r') name <= count_of (tags_counter r) name) /\
    (forall name, count_of (cats_counter r') name <= count_of (cats_counter r) name) /\
    file_usage r' ⊆ file_usage r.
Proof.
  intros H. apply collect_Some in H as (Ha & -> & ->).
  set (paths := collect_paths content_dir exts file_paths) in *.
  eexists. split; [apply (collect_completes read_lines safe_load os_walk); exact Ha|].
  fold paths.
  assert (Ht : forall p, tags_of true p = tags_of false p \/ tags_of true p = []).
  { intros p. unfold tags_of. destruct (contribution_drafts p) as [-> | ->]; auto. }
  assert (Hc : forall p, cats_of true p = cats_of false p \/ cats_of true p = []).
  { intros p. unfold cats_of. destruct (contribution_drafts p) as [-> | ->]; auto. }
  split; [|split].
  - intros name. rewrite !fold_step_tags_counter, !count_of_counter_update.
    pose proof (occurrences_flat_map_le _ _ paths name Ht). lia.
  - intros name. rewrite !fold_step_cats_counter, !count_of_counter_update.
    pose proof (occurrences_flat_map_le _ _ paths name Hc). lia.
  - apply map_subseteq_spec. intros p u. rewrite !fold_step_file_usage.
    destruct (contribution_drafts p) as [-> | ->]; [auto|].
    cbn [empty_collected file_usage]. rewrite lookup_empty. discriminate.
Qed.

(** X13: after a collection that returned, the counts of the summary rows
    of the tags add up to the number of tag occurrences in the files that
    count, as long as the threshold is at most 1 and there is no limit; the
    same for the categories.  This is the number of the total line of the
    table. *)
Theorem X13_summary_total_counts_occurrences
    (content_dir : string) (exts : list string) (ignore_drafts : bool)
    (file_paths : option (list string)) (w : list warning) (r : collected)
    (mode : string) (min_count : Z) :
  collect content_dir exts ignore_drafts file_paths = (w, Some r) ->
  min_count <= 1 ->
  let paths := collect_paths content_dir exts file_paths in
  total (sort_and_filter (tags_counter r) mode min_count 0)
    = Z.of_nat (length (flat_map (tags_of ignore_drafts) paths)) /\
  total (sort_and_filter (cats_counter r) mode min_count 0)
    = Z.of_nat (length (flat_map (cats_of ignore_drafts) paths)).
Proof.
  intros H Hmin paths. apply collect_Some in H as (_ & _ & ->). fold paths.
  pose proof (fold_step_linked read_lines safe_load ignore_drafts paths
                empty_collected (conj linked_empty linked_empty)) as [Lt Lc].
  assert (Hall : forall (c : gmap string Z) m, linked c m ->
            total (sort_and_filter c mode min_count 0) = total (map_to_list c)).
  { intros c m L.
    rewrite (total_Permutation _ _ (sort_and_filter_unlimited_Permutation c mode min_count)).
    unfold retained. rewrite filter_all; [reflexivity|].
    apply List.Forall_forall. intros [k v] Hin.
    apply list_elem_of_In, elem_of_map_to_list in Hin.
    destruct (proj1 (linked_lookup c m k L) v Hin) as (_ & _ & _ & Hpos).
    apply Z.leb_le. simpl. lia. }
  rewrite (Hall _ _ Lt), (Hall _ _ Lc).
  rewrite fold_step_tags_counter, fold_step_cats_counter, !total_counter_update.
  cbn [empty_collected tags_counter cats_counter]. rewrite map_to_list_empty.
  change (total []) with 0. lia.
Qed.

End DraftsAndTotals.

Lemma collect_content_result :
  Fixture.collect "content" [".md"] false None
  = ([ReadError "content/locked.md" "[Errno 13] Permission denied";
      YamlError "content/broken.md" "while parsing a flow sequence"],
     Some content_result).
Proof. vm_compute. reflexivity. Qed.

(** X12 on [content], where [draft.md] is a draft with the tag [wip]. *)
Lemma X12_witness :
  exists r' : collected,
    Fixture.collect "content" [".md"] true None
    = ([ReadError "content/locked.md" "[Errno 13] Permission denied";
        YamlError "content/broken.md" "while parsing a flow sequence"], Some r') /\
    count_of (tags_counter r') "wip" <= count_of (tags_counter content_result) "wip" /\
    file_usage r' ⊆ file_usage content_result.
Proof.
  destruct (X12_ignoring_drafts_only_removes
              Fixture.read_lines Fixture.safe_load Fixture.os_walk
              "content" [".md"] None _ _ collect_content_result)
    as (r' & H1 & H2 & _ & H3).
  exists r'. split; [exact H1|]. split; [exact (H2 "wip")|exact H3].
Defined.

(** X13 on the scenario file: three tag occurrences, one category. *)
Lemma X13_witness :
  total (sort_and_filter (tags_counter go_result) "count" 0 0) = 3 /\
  total (sort_and_filter (cats_counter go_result) "count" 0 0) = 1.
Proof.
  exact (X13_summary_total_counts_occurrences
           Fixture.read_lines Fixture.safe_load Fixture.os_walk
           "content" [".md"] false (Some ["content/go.md"]) [] go_result "count" 0
           collect_go_result ltac:(lia)).
Defined.

(** ** Threshold and limit *)

Lemma StronglySorted_filter {X : Type} (R : X -> X -> Prop) (f : X -> bool)
    (l : list X) :
  StronglySorted R l -> StronglySorted R (List.filter f l).
Proof.
  induction 1 as [|a l Hl IH Ha]; cbn [List.filter]; [constructor|].
  destruct (f a); [|exact IH]. constructor; [exact IH|].
  rewrite List.Forall_forall in *. intros b Hb. apply filter_In in Hb as [Hb _].
  now apply Ha.
Qed.

Lemma filter_filter_implied {X : Type} (f g : X -> bool) (l : list X) :
  (forall x, f x = true -> g x = true) ->
  List.filter f (List.filter g l) = List.filter f l.
Proof.
  intros H. induction l as [|x l IH]; cbn [List.filter]; [reflexivity|].
  destruct (g x) eqn:Hg; cbn [List.filter].
  - now rewrite IH.
  - destruct (f x) eqn:Hf; [rewrite (H x Hf) in Hg; discriminate|exact IH].
Qed.

Lemma sort_and_filter_unlimited_ordered (counter : gmap string Z) (mode : string)
    (min_count : Z) :
  StronglySorted (if String.eqb mode "alpha" then alpha_before else count_before)
    (sort_and_filter counter mode min_count 0).
Proof.
  rewrite sort_and_filter_eq. cbn zeta. change (0 <? 0) with false. cbv iota.
  destruct (String.eqb mode "alpha");
    [apply sorted_alpha_ordered|apply sorted_count_ordered]; apply NoDup_retained.
Qed.

(** X14: raising the threshold only removes rows and never reorders
    them: for [m1 <= m2] the rows for the threshold [m2] are the rows for
    [m1] that reach [m2], in the same order.  A limit keeps no more rows
    than it says: with [top > 0] the number of rows is the smaller of [top]
    and the number of rows without a limit, and a limit of 0 or below is
    no limit. *)
Theorem X14_threshold_and_limit_only_remove (counter : gmap string Z) (mode : string)
    (m1 m2 top : Z) :
  m1 <= m2 ->
  sort_and_filter counter mode m2 0
    = List.filter (fun kv : string * Z => m2 <=? kv.2) (sort_and_filter counter mode m1 0) /\
  Z.of_nat (length (sort_and_filter counter mode m1 top))
    = (if 0 <? top
       then Z.min top (Z.of_nat (length (sort_and_filter counter mode m1 0)))
       else Z.of_nat (length (sort_and_filter counter mode m1 0))).
Proof.
  intros Hm. split.
  - apply (StronglySorted_unique_strong
             (if String.eqb mode "alpha" then alpha_before else count_before)).
    + intros x y _ _. destruct (String.eqb mode "alpha");
        [apply alpha_before_asym|apply count_before_asym].
    + apply sort_and_filter_unlimited_ordered.
    + apply StronglySorted_filter, sort_and_filter_unlimited_ordered.
    + rewrite (sort_and_filter_unlimited_Permutation counter mode m2).
      rewrite (filter_Permutation _ _ _
                 (sort_and_filter_unlimited_Permutation counter mode m1)).
      unfold retained. rewrite filter_filter_implied; [reflexivity|].
      intros [k v]. simpl. rewrite !Z.leb_le. lia.
  - rewrite (sort_and_filter_eq counter mode m1 top),
      (sort_and_filter_eq counter mode m1 0). cbn zeta.
    change (0 <? 0) with false. cbv iota.
    destruct (Z.ltb_spec 0 top); [|reflexivity].
    rewrite length_firstn. lia.
Qed.

(** X14 on a counter with four tags. *)
Lemma X14_witness :
  sort_and_filter (<["rust" := 1]> (<["go" := 2]> (<["ada" := 2]> (<["c" := 5]> ∅))))
    "count" 2 0
  = List.filter (fun kv : string * Z => 2 <=? kv.2)
      (sort_and_filter (<["rust" := 1]> (<["go" := 2]> (<["ada" := 2]> (<["c" := 5]> ∅))))
         "count" 0 0).
Proof.
  exact (proj1 (X14_threshold_and_limit_only_remove
                  (<["rust" := 1]> (<["go" := 2]> (<["ada" := 2]> (<["c" := 5]> ∅))))
                  "count" 0 2 0 ltac:(lia))).
Defined.

(** ** The text table *)

Lemma len_app (a b : string) : len (a +:+ b) = len a + len b.
Proof. unfold len. rewrite str_length_app. lia. Qed.

Lemma len_repeat_char (c : ascii) (n : nat) :
  String.length (Str.repeat_char c n) = n.
Proof. induction n as [|n IH]; cbn; [reflexivity|now rewrite IH]. Qed.

Lemma len_times (c : ascii) (n : Z) : len (times c n) = Z.max 0 n.
Proof. unfold len, times. rewrite len_repeat_char. lia. Qed.

Lemma len_nonneg (s : string) : 0 <= len s.
Proof. unfold len. lia. Qed.

Lemma len_rjust (s : string) (width : Z) : len (rjust s width) = Z.max (len s) width.
Proof. unfold rjust. rewrite len_app, len_times. pose proof (len_nonneg s). lia. Qed.

Lemma len_ljust (s : string) (width : Z) : len (ljust s width) = Z.max (len s) width.
Proof. unfold ljust. rewrite len_app, len_times. pose proof (len_nonneg s). lia. Qed.

Lemma max_of_from {X : Type} (f : X -> Z) (rows : list X) (start : Z) :
  start <= max_of f start rows /\ Forall (fun r => f r <= max_of f start rows) rows.
Proof.
  unfold max_of. revert start. induction rows as [|r rows IH]; intros start;
    cbn [fold_left].
  - split; [lia|constructor].
  - destruct (IH (Z.max start (f r))) as [Hs Hall]. split; [lia|].
    constructor; [lia|exact Hall].
Qed.

(** X15: the text table is aligned.  For a table with rows, the text is
    the header, its underline, the column heading, a rule, one line for
    each row and the total line; the rule and every row line have the same
    length, the width of the count column (5 at least, and wide enough for
    every count), two blanks and the width of the name column (wide enough
    for the header and for every name); the column heading has that length
    too, unless the name column is narrower than the word "name". *)
Theorem X15_text_table_is_aligned (rows : list (string * Z)) (header : string) :
  rows <> [] ->
  let width_item := table_width_item rows header in
  let width_cnt := table_width_cnt rows in
  render_table_text rows header
    = Str.join Str.nl
        ([header; times "="%char (len header)]
         ++ table_text_body rows header
         ++ [Str.nl +:+ "Total " +:+ Str.lower header +:+ ": "
             +:+ str_of_int (total rows)])
      +:+ Str.nl /\
  match table_text_body rows header with
  | heading :: lines =>
      len heading = width_cnt + 2 + Z.max 4 width_item /\
      Forall (fun line => len line = width_cnt + 2 + width_item) lines
  | [] => False
  end /\
  5 <= width_cnt /\
  len header <= width_item /\
  Forall (fun r : string * Z =>
            len (str_of_int r.2) <= width_cnt /\ len r.1 <= width_item) rows.
Proof.
  intros Hrows width_item width_cnt.
  destruct (max_of_from (fun r : string * Z => len r.1) rows (len header))
    as [Hi Hiall].
  destruct (max_of_from (fun r : string * Z => len (str_of_int r.2)) rows 5)
    as [Hc Hcall].
  fold (table_width_item rows header) in Hi, Hiall.
  fold (table_width_cnt rows) in Hc, Hcall.
  fold width_item in Hi, Hiall. fold width_cnt in Hc, Hcall.
  assert (Hfit : Forall (fun r : string * Z =>
                   len (str_of_int r.2) <= width_cnt /\ len r.1 <= width_item) rows).
  { rewrite List.Forall_forall in *. intros r Hr. split; [now apply Hcall|now apply Hiall]. }
  split.
  { unfold render_table_text. destruct rows as [|r0 rows']; [congruence|].
    rewrite fold_left_lines. unfold table_text_body, table_text_row.
    fold (table_width_item (r0 :: rows') header). fold (table_width_cnt (r0 :: rows')).
    now rewrite <- !app_assoc. }
  split.
  { unfold table_text_body. fold width_item. fold width_cnt. cbn [app]. split.
    { rewrite !len_app, len_rjust, len_ljust.
      change (len "count") with 5. change (len "name") with 4. change (len "  ") with 2.
      lia. }
    apply Forall_cons_2.
    - rewrite !len_app, !len_times. change (len "  ") with 2.
      pose proof (len_nonneg header). lia.
    - apply Forall_forall. intros line Hline.
      apply list_elem_of_In, in_map_iff in Hline as [r [<- Hr]].
      rewrite List.Forall_forall in Hfit. destruct (Hfit r Hr) as [H1 H2].
      unfold table_text_row. rewrite !len_app, len_rjust, len_ljust.
      change (len "  ") with 2. lia. }
  split; [exact Hc|]. split; [exact Hi|exact Hfit].
Qed.

(** X15 on the summary rows of the scenario. *)
Lemma X15_witness :
  match table_text_body [("go", 2); ("rust", 1)] "Tags" with
  | heading :: lines =>
      len heading = 5 + 2 + Z.max 4 4 /\
      Forall (fun line => len line = 5 + 2 + 4) lines
  | [] => False
  end.
Proof.
  exact (proj1 (proj2 (X15_text_table_is_aligned [("go", 2); ("rust", 1)] "Tags"
                         ltac:(discriminate)))).
Defined.

(** ** The per-file listing *)

Lemma map_insert_by {X K : Type} (key : X -> K) (le : K -> K -> bool) (x : X)
    (l : list X) :
  map key (insert_by key le x l) = insert_by (fun k : K => k) le (key x) (map key l).
Proof.
  induction l as [|y l IH]; cbn [insert_by map]; [reflexivity|].
  destruct (le (key x) (key y)); cbn [map]; [reflexivity|now rewrite IH].
Qed.

(** Sorting by a key and taking the keys is taking the keys and sorting. *)
Lemma map_sort_by {X K : Type} (key : X -> K) (le : K -> K -> bool) (l : list X) :
  map key (sort_by key le l) = sort_by (fun k : K => k) le (map key l).
Proof.
  induction l as [|x l IH]; cbn [sort_by foldr map]; [reflexivity|].
  fold (sort_by key le l). fold (sort_by (fun k : K => k) le (map key l)).
  now rewrite map_insert_by, IH.
Qed.

Lemma flat_map_map {X Y Z' : Type} (g : X -> Y) (f : Y -> list Z') (l : list X) :
  flat_map f (map g l) = flat_map (fun x => f (g x)) l.
Proof. induction l as [|x l IH]; cbn [map flat_map]; [reflexivity|now rewrite IH]. Qed.

Lemma flat_map_ext_In {X Y : Type} (f g : X -> list Y) (l : list X) :
  (forall x, In x l -> f x = g x) -> flat_map f l = flat_map g l.
Proof.
  induction l as [|x l IH]; intros H; cbn [flat_map]; [reflexivity|].
  rewrite (H x (or_introl eq_refl)), IH; [reflexivity|].
  intros y Hy. apply H. now right.
Qed.

Lemma length_flat_map_const {X Y : Type} (f : X -> list Y) (l : list X) (n : nat) :
  (forall x, length (f x) = n) -> length (flat_map f l) = (n * length l)%nat.
Proof.
  intros H. induction l as [|x l IH]; cbn [flat_map length]; [lia|].
  rewrite length_app, H, IH. lia.
Qed.

(** X16: the per-file listing shows every file with a usage record once,
    and no other file, in ascending order of the paths: after the banner it
    is the three lines (path, tags, categories) of each record, taken in
    the order of the paths, and a closing rule; it has three lines for
    each record and two more. *)
Theorem X16_per_file_listing_in_path_order (usage_of : gmap string usage) :
  exists entries : list (string * usage),
    Permutation entries (map_to_list usage_of) /\
    StronglySorted (fun a b : string * usage => String.ltb a.1 b.1 = true) entries /\
    print_per_file usage_of
      = [PerFileBanner] ++ flat_map per_file_block entries
        ++ [Text ((Str.nl +:+ "---" +:+ Str.nl) +:+ Str.nl)] /\
    length (print_per_file usage_of) = (3 * size usage_of + 2)%nat.
Proof.
  set (entries := sort_by (fun e : string * usage => e.1) String.leb
                    (map_to_list usage_of)).
  assert (Hperm : Permutation entries (map_to_list usage_of))
    by apply sort_by_Permutation.
  assert (Heq : print_per_file usage_of
                = [PerFileBanner] ++ flat_map per_file_block entries
                  ++ [Text ((Str.nl +:+ "---" +:+ Str.nl) +:+ Str.nl)]).
  { unfold print_per_file, sorted_strings. do 2 f_equal.
    rewrite <- (map_sort_by (fun e : string * usage => e.1) String.leb).
    fold entries. rewrite flat_map_map. apply flat_map_ext_In.
    intros [fname u] Hin. apply (Permutation_in _ Hperm) in Hin.
    apply list_elem_of_In, elem_of_map_to_list in Hin. cbn [fst]. now rewrite Hin. }
  exists entries. split; [exact Hperm|]. split.
  { eapply StronglySorted_impl;
      [|apply StronglySorted_distinct_names;
        [apply (sort_by_StronglySorted _ _ String.leb_total string_leb_trans)|]].
    - intros a b [Hle Hne]. now apply string_leb_ne_ltb.
    - eapply NoDup_names_Permutation; [symmetry; exact Hperm|].
      apply NoDup_fst_map_to_list. }
  split; [exact Heq|].
  rewrite Heq, !length_app. cbn [length].
  rewrite (length_flat_map_const per_file_block entries 3) by reflexivity.
  rewrite (Permutation_length Hperm), length_map_to_list. lia.
Qed.

(** ** The CSV table *)

Lemma csv_escape_cons (c : ascii) (s : string) :
  csv_escape (String c s)
  = if Ascii.eqb c (ascii_of_N 34)
    then String (ascii_of_N 34) (String (ascii_of_N 34) (csv_escape s))
    else String c (csv_escape s).
Proof. unfold csv_escape. cbn [replace_char]. now destruct (Ascii.eqb c (ascii_of_N 34)). Qed.

Lemma csv_escape_inj (s1 s2 : string) : csv_escape s1 = csv_escape s2 -> s1 = s2.
Proof.
  revert s2. induction s1 as [|c1 s1 IH]; intros [|c2 s2].
  - reflexivity.
  - rewrite csv_escape_cons. change (csv_escape "") with "".
    destruct (Ascii.eqb c2 _); discriminate.
  - rewrite csv_escape_cons. change (csv_escape "") with "".
    destruct (Ascii.eqb c1 _); discriminate.
  - rewrite !csv_escape_cons.
    destruct (Ascii.eqb_spec c1 (ascii_of_N 34)) as [->|H1],
             (Ascii.eqb_spec c2 (ascii_of_N 34)) as [->|H2].
    + intros [= H]. now rewrite (IH s2 H).
    + intros [= Hc _]. destruct H2. symmetry. exact Hc.
    + intros [= Hc _]. destruct H1. exact Hc.
    + intros [= -> H]. now rewrite (IH s2 H).
Qed.

Lemma csv_escape_paired (s : string) : quotes_paired (csv_escape s) = true.
Proof.
  induction s as [|c s IH]; [reflexivity|]. rewrite csv_escape_cons.
  destruct (Ascii.eqb c (ascii_of_N 34)) eqn:E; cbn [quotes_paired].
  - now rewrite IH.
  - now rewrite E.
Qed.

(** X17: the CSV table is the line [count,name] and one line for each row,
    the count, a comma and the name between quotes; in the name every quote
    is doubled, so that the quotes of the field come in pairs, and two
    names never give the same field.  The header argument is not used, and
    a table without rows is the first line alone. *)
Theorem X17_csv_table_quotes_names (rows : list (string * Z)) (header : string) :
  render_table_csv rows header
    = Str.join Str.nl ("count,name" :: map csv_row rows) +:+ Str.nl /\
  Inj (=) (=) csv_escape /\
  (forall name, quotes_paired (csv_escape name) = true) /\
  render_table_csv [] header = "count,name" +:+ Str.nl /\
  (forall header', render_table_csv rows header' = render_table_csv rows header).
Proof.
  split.
  { unfold render_table_csv. now rewrite fold_left_lines. }
  split; [intros s1 s2; apply csv_escape_inj|].
  split; [exact csv_escape_paired|].
  split; reflexivity.
Qed.

(** ** The extensions of the command line *)



Example exts_of_mixed : exts_of "md, .txt ,,markdown" = [".md"; ".txt"; ".markdown"].
Proof. vm_compute. reflexivity. Qed.

(** ** Singletons and the summary *)

Section SingletonsInSummary.

Variable read_lines : string -> string + list string.
Variable safe_load : string -> string + yaml_value.
Variable os_walk : string -> list (string * list string).

#[local] Abbreviation collect := (collect read_lines safe_load os_walk).

(** X19: after a collection that returned, every row of the singleton
    listing is a row of the summary for the same names, with the same count
    1, as long as the threshold of the summary is at most 1 and it has no
    limit; with a threshold above 1 no singleton is in the summary. *)
Theorem X19_singletons_are_summary_rows
    (content_dir : string) (exts : list string) (ignore_drafts : bool)
    (file_paths : option (list string)) (w : list warning) (r : collected)
    (mode : string) (min_count : Z) :
  collect content_dir exts ignore_drafts file_paths = (w, Some r) ->
  (if min_count <=? 1
   then incl (singleton_rows (tag_to_files r))
             (sort_and_filter (tags_counter r) mode min_count 0) /\
        incl (singleton_rows (cat_to_files r))
             (sort_and_filter (cats_counter r) mode min_count 0)
   else Forall (fun row => ~ In row (sort_and_filter (tags_counter r) mode min_count 0))
          (singleton_rows (tag_to_files r)) /\
        Forall (fun row => ~ In row (sort_and_filter (cats_counter r) mode min_count 0))
          (singleton_rows (cat_to_files r))).
Proof.
  intros H. apply collect_Some in H as (_ & _ & Hr).
  pose proof (fold_step_linked read_lines safe_load ignore_drafts
                (collect_paths os_walk content_dir exts file_paths)
                empty_collected (conj linked_empty linked_empty)) as [Lt Lc].
  rewrite <- Hr in Lt, Lc.
  assert (Hrow : forall (c : gmap string Z) m (row : string * Z),
            linked c m -> In row (singleton_rows m) ->
            row.2 = 1 /\ c !! row.1 = Some 1).
  { intros c m [name count] L Hin. apply In_singleton_rows in Hin as [-> Hf].
    split; [reflexivity|]. now apply (linked_singleton c m name L). }
  assert (Hmem : forall (c : gmap string Z) (row : string * Z),
            In row (sort_and_filter c mode min_count 0) <->
            c !! row.1 = Some row.2 /\ min_count <= row.2).
  { intros c [k v]. rewrite <- In_retained. split; apply Permutation_in;
      [|symmetry]; apply sort_and_filter_unlimited_Permutation. }
  destruct (Z.leb_spec min_count 1) as [Hmin|Hmin].
  - split; intros row Hin; apply Hmem.
    + destruct (Hrow _ _ row Lt Hin) as [-> Hc]. split; [exact Hc|exact Hmin].
    + destruct (Hrow _ _ row Lc Hin) as [-> Hc]. split; [exact Hc|exact Hmin].
  - split; apply List.Forall_forall; intros row Hin Hsum; apply Hmem in Hsum.
    + destruct (Hrow _ _ row Lt Hin) as [H1 _]. lia.
    + destruct (Hrow _ _ row Lc Hin) as [H1 _]. lia.
Qed.

End SingletonsInSummary.

(** X19 on the two files of [site]: the singleton [y] is a row of the
    summary. *)
Lemma X19_witness :
  incl (singleton_rows (tag_to_files site_result))
       (sort_and_filter (tags_counter site_result) "alpha" 0 0).
Proof.
  exact (proj1 (X19_singletons_are_summary_rows
                  Fixture.read_lines Fixture.safe_load Fixture.os_walk
                  "site" [".md"] false None [] site_result "alpha" 0
                  collect_site_result)).
Defined.

(** ** The rows of the mapping views *)

Lemma length_sorted_strings (l : list string) :
  length (sorted_strings l) = length l.
Proof. apply Permutation_length, sort_by_Permutation. Qed.

Lemma csv_block_length (m : gmap string (list string)) (key : string) :
  length (csv_block m key) = Nat.max 1 (length (files_of m key)).
Proof.
  unfold csv_block. rewrite <- (length_sorted_strings (files_of m key)).
  destruct (sorted_strings (files_of m key)) as [|f files]; [reflexivity|].
  rewrite length_map. cbn [length]. lia.
Qed.

Lemma occurrences_repeat (path p : string) (n : nat) :
  occurrences path (repeat p n) = if String.eqb path p then Z.of_nat n else 0.
Proof.
  induction n as [|n IH]; cbn [repeat].
  - now destruct (String.eqb path p).
  - rewrite occurrences_cons, IH. destruct (String.eqb path p); lia.
Qed.

Lemma occurrences_repeated_paths (f : string -> nat) (paths : list string)
    (path : string) :
  occurrences path (flat_map (fun p => repeat p (f p)) paths)
  = occurrences path paths * Z.of_nat (f path).
Proof.
  induction paths as [|p paths IH]; cbn [flat_map]; [reflexivity|].
  rewrite occurrences_app, occurrences_cons, occurrences_repeat, IH.
  destruct (String.eqb_spec path p) as [->|_]; lia.
Qed.

Section MappingRows.

Variable read_lines : string -> string + list string.
Variable safe_load : string -> string + yaml_value.
Variable os_walk : string -> list (string * list string).

#[local] Abbreviation collect := (collect read_lines safe_load os_walk).
#[local] Abbreviation collect_paths := (collect_paths os_walk).
#[local] Abbreviation tags_of := (tags_of read_lines safe_load).
#[local] Abbreviation cats_of := (cats_of read_lines safe_load).

(** X20: the CSV mapping view is the line [name,file] and then, for each
    key in turn, one row for each path of the key, or one row with an empty
    file when the key has no path.  After a collection that returned every
    key the driver hands to the view has a path, so that the row with an
    empty file is never printed. *)
Theorem X20_csv_mapping_rows
    (content_dir : string) (exts : list string) (ignore_drafts : bool)
    (file_paths : option (list string)) (w : list warning) (r : collected)
    (a : args) :
  collect content_dir exts ignore_drafts file_paths = (w, Some r) ->
  (forall keys m,
     render_mapping_csv keys m
       = Str.join Str.nl ("name,file" :: flat_map (csv_block m) keys) +:+ Str.nl /\
     Forall (fun key => length (csv_block m key) = Nat.max 1 (length (files_of m key)))
       keys) /\
  Forall (fun key => files_of (tag_to_files r) key <> [])
    (ordered_keys_from a (tags_counter r)) /\
  Forall (fun key => files_of (cat_to_files r) key <> [])
    (ordered_keys_from a (cats_counter r)).
Proof.
  intros H. apply collect_Some in H as (_ & _ & Hr).
  pose proof (fold_step_linked read_lines safe_load ignore_drafts
                (collect_paths content_dir exts file_paths)
                empty_collected (conj linked_empty linked_empty)) as [Lt Lc].
  rewrite <- Hr in Lt, Lc.
  assert (Hkeys : forall (c : gmap string Z) m, linked c m ->
            Forall (fun key => files_of m key <> []) (ordered_keys_from a c)).
  { intros c m L. apply List.Forall_forall. intros key Hin.
    unfold ordered_keys_from in Hin. apply in_map_iff in Hin as [[k v] [Hk Hin]].
    simpl in Hk. subst k. apply sort_and_filter_In in Hin as [Hc _].
    destruct (proj1 (linked_lookup c m key L) v Hc) as (files & Hf & Hv & Hpos).
    unfold files_of. rewrite Hf. simpl.
    destruct files; [simpl in Hv; lia|discriminate]. }
  split; [|split; [exact (Hkeys _ _ Lt)|exact (Hkeys _ _ Lc)]].
  intros keys m. split; [apply render_mapping_csv_view|].
  apply List.Forall_forall. intros key _. apply csv_block_length.
Qed.

(** X21: the paths shown under a tag keep their multiplicity.  After a
    collection that returned, a path stands under a tag, in the sorted
    list that the mapping views print, as many times as it was gone through
    times the number of times its file lists the tag: a file that lists a
    tag twice is printed twice under it.  The same for categories. *)
Theorem X21_mapping_views_keep_multiplicity
    (content_dir : string) (exts : list string) (ignore_drafts : bool)
    (file_paths : option (list string)) (w : list warning) (r : collected) :
  collect content_dir exts ignore_drafts file_paths = (w, Some r) ->
  forall name path : string,
    let paths := collect_paths content_dir exts file_paths in
    occurrences path (sorted_strings (files_of (tag_to_files r) name))
      = occurrences path paths * occurrences name (tags_of ignore_drafts path) /\
    occurrences path (sorted_strings (files_of (cat_to_files r) name))
      = occurrences path paths * occurrences name (cats_of ignore_drafts path).
Proof.
  intros H name path paths. apply collect_Some in H as (_ & _ & ->). fold paths.
  assert (Hs : forall l, occurrences path (sorted_strings l) = occurrences path l).
  { intros l. apply occurrences_Permutation. unfold sorted_strings.
    apply sort_by_Permutation. }
  rewrite !Hs, fold_step_tag_to_files, fold_step_cat_to_files.
  cbn [empty_collected tag_to_files cat_to_files].
  assert (He : forall n, files_of ∅ n = []).
  { intros n. unfold files_of. now rewrite lookup_empty. }
  rewrite !He. cbn [app].
  rewrite !occurrences_repeated_paths. split; reflexivity.
Qed.

End MappingRows.

(** X20 on the content tree with its drafts. *)
Lemma X20_witness :
  Forall (fun key => files_of (tag_to_files content_result) key <> [])
    (ordered_keys_from Fixture.default_args (tags_counter content_result)).
Proof.
  exact (proj1 (proj2 (X20_csv_mapping_rows
                         Fixture.read_lines Fixture.safe_load Fixture.os_walk
                         "content" [".md"] false None _ content_result
                         Fixture.default_args collect_content_result))).
Defined.

(** X21 on the scenario file, which lists [go] twice. *)
Lemma X21_witness :
  occurrences "content/go.md" (sorted_strings (files_of (tag_to_files go_result) "go")) = 2.
Proof.
  exact (proj1 (X21_mapping_views_keep_multiplicity
                  Fixture.read_lines Fixture.safe_load Fixture.os_walk
                  "content" [".md"] false (Some ["content/go.md"]) [] go_result
                  collect_go_result "go" "content/go.md")).
Defined.
